(** * polygonGBA: the delta audio codecs

    A shallow embedding of
    - [compression/encoder/delta_encoder.py]  (class [DeltaEncoder]: the
      variable-width delta codec and its bit packer), and
    - [compression/encoder/gba_optimized_codec.py]  (the byte-aligned 8-bit
      delta codec written for the GBA Direct Sound channel),
    - the PGDA writers of [ffmpeg_to_pgda.py] and
      [compression/encoder/ffmpeg_comparison_codec.py], and
    - [analyze_delta_compression] of
      [compression/analysis/compression_analyzer.py], and
    - [compression/decoder/bin2c.py],
    together with the properties the design document states about them and
    further properties read off the code.

    Conventions.
    - A Python [float] sample is an exact rational ([Q]); every finite
      binary64 value is one, and the arithmetic on samples is taken exact
      (no rounding of products, sums or of the final [float32] array).
      [int(x)] on a float truncates toward zero, [np.round] rounds half to
      even.  Where an integer, a byte or an error depends on a rounded
      product or quotient, the property is stated so that it holds of the
      binary64 result as well as of the exact one: the rounded value is any
      value within binary64's relative error ([Binary64.rounded]), and the
      inputs are kept to magnitudes at which nothing overflows
      ([Binary64.in_range]).
    - Python [int] is [Z]; [//] is [Z.div] (floor), [&], [|], [<<], [>>]
      are [Z.land], [Z.lor], [Z.shiftl], [Z.shiftr].  A numpy [int8] is a
      [Z] in [-128, 127]; its addition wraps around.
    - A byte written to a file is a [Z] in [0, 256); a file is a [list Z],
      and a function that writes a file returns its bytes.
    - An exception is the [Raise] branch of [result].  The progress report
      a function prints is kept where computing it can raise.
    - numpy's process-wide random generator is passed explicitly. *)

From stdpp Require Import gmap list strings pretty.
From Stdlib Require Import ZArith QArith Qabs Qround Lia Lqa Ascii.

Local Open Scope Z_scope.

(** ** Exceptions *)

Inductive exn : Type :=
  | ZeroDivisionError
  | IndexError
  | KeyError (k : Z)
  | ValueError (msg : string)
  | OverflowError
  | StructError
  | TruncatedStream.

Inductive result (A : Type) : Type :=
  | Ok (a : A)
  | Raise (e : exn).
Arguments Ok {A} a.
Arguments Raise {A} e.

#[global] Instance result_ret : MRet result := @Ok.
#[global] Instance result_bind : MBind result :=
  fun A B f m => match m with Ok a => f a | Raise e => Raise e end.

Definition is_Ok {A} (r : result A) : bool :=
  match r with Ok _ => true | Raise _ => false end.

(** ** Python and numpy primitives *)

(** [x < y] and [x >= y] on floats. *)
Definition Qltb (x y : Q) : bool := (Qnum x * QDen y <? Qnum y * QDen x)%Z.
Definition Qgeb (x y : Q) : bool := Qle_bool y x.

(** [int(x)] for a float [x]: truncation toward zero. *)
Definition py_int (x : Q) : Z := Z.quot (Qnum x) (Z.pos (Qden x)).

(** [a / b] on Python numbers. *)
Definition py_truediv (a b : Q) : result Q :=
  if Qeq_bool b 0 then Raise ZeroDivisionError else Ok (a / b)%Q.

(** [np.diff(a)]: the differences [a[i+1] - a[i]]. *)
Fixpoint np_diff (a : list Q) : list Q :=
  match a with
  | x :: (y :: _) as tl => (y - x)%Q :: np_diff tl
  | _ => []
  end.

(** [struct.pack('<I', n)]: four bytes, least significant first; a value
    outside the unsigned 32-bit range is a [struct.error]. *)
Fixpoint le_bytes (n : nat) (v : Z) : list Z :=
  match n with
  | O => []
  | S n' => Z.land v 255 :: le_bytes n' (Z.shiftr v 8)
  end.

Definition struct_pack_I (n : Z) : result (list Z) :=
  if (0 <=? n) && (n <? 2 ^ 32) then Ok (le_bytes 4 n) else Raise StructError.

(** The bytes of an ASCII literal such as [b'PGDD']. *)
Definition bytes_of_string (s : string) : list Z :=
  map (fun c => Z.of_nat (Ascii.nat_of_ascii c)) (String.list_ascii_of_string s).

(** [xs[0]]. *)
Definition py_first {A} (xs : list A) : result A :=
  match xs with
  | x :: _ => Ok x
  | [] => Raise IndexError
  end.

(** ** delta_encoder.py: class DeltaEncoder *)

Module DeltaEncoder.

(** The attributes set by [__init__]. *)
Record t : Type := {
  small_delta_threshold : Q;
  medium_delta_threshold : Q;
  quantization_levels : gmap Z Z
}.

Definition init : t := {|
  small_delta_threshold := 1 # 100;
  medium_delta_threshold := 1 # 10;
  quantization_levels := {[ 4 := 16; 8 := 256; 12 := 4096 ]}
|}.

(** [self.quantization_levels[bits]]. *)
Definition levels (self : t) (bits : Z) : result Z :=
  match quantization_levels self !! bits with
  | Some n => Ok n
  | None => Raise (KeyError bits)
  end.

Definition quantize_delta (self : t) (delta : Q) (bits : Z) : result Z :=
  n ← levels self bits;
  let max_val := n / 2 - 1 in
  let min_val := - max_val - 1 in
  let scaled := py_int (delta * inject_Z max_val / 1)%Q in
  Ok (Z.max min_val (Z.min max_val scaled)).

(** The first component of an encoded tuple. *)
Inductive entry_type : Type := reference | small | medium | large.

(** An encoded tuple [(entry_type, bits, value)]. *)
Record entry : Type := Entry {
  e_type : entry_type;
  e_bits : Z;
  e_value : Z
}.

(** The magnitude test of the encoding loop, on its own. *)
Definition classify (self : t) (delta : Q) : entry_type :=
  let abs_delta := Qabs delta in
  if Qltb abs_delta (small_delta_threshold self) then small
  else if Qltb abs_delta (medium_delta_threshold self) then medium
  else large.

Definition tier_bits (ty : entry_type) : Z :=
  match ty with
  | reference => 16
  | small => 4
  | medium => 8
  | large => 12
  end.

(** One turn of the loop [for i, delta in enumerate(deltas)]. *)
Definition encode_delta (self : t) (delta : Q) : result entry :=
  let abs_delta := Qabs delta in
  if Qltb abs_delta (small_delta_threshold self) then
    quantized ← quantize_delta self delta 4; Ok (Entry small 4 quantized)
  else if Qltb abs_delta (medium_delta_threshold self) then
    quantized ← quantize_delta self delta 8; Ok (Entry medium 8 quantized)
  else
    quantized ← quantize_delta self delta 12; Ok (Entry large 12 quantized).

Fixpoint encode_deltas (self : t) (deltas : list Q) (encoded_data : list entry)
  : result (list entry) :=
  match deltas with
  | [] => Ok encoded_data
  | delta :: rest =>
      e ← encode_delta self delta;
      encode_deltas self rest (encoded_data ++ [e])
  end.

(** The boolean masks of the classification report. *)
Definition small_mask (self : t) (d : Q) : bool :=
  Qltb (Qabs d) (small_delta_threshold self).
Definition medium_mask (self : t) (d : Q) : bool :=
  Qgeb (Qabs d) (small_delta_threshold self)
  && Qltb (Qabs d) (medium_delta_threshold self).
Definition large_mask (self : t) (d : Q) : bool :=
  Qgeb (Qabs d) (medium_delta_threshold self).

Record compression_info : Type := {
  original_samples : Z;
  delta_samples : Z;
  original_bits : Z;
  compressed_bits : Z;
  compression_ratio : Q;
  distribution : Z * Z * Z
}.

Record decoder_params : Type := {
  first_sample : Z;
  small_threshold : Q;
  medium_threshold : Q;
  dp_quantization_levels : gmap Z Z
}.

Record encoded_result : Type := {
  encoded_data : list entry;
  info : compression_info;
  params : decoder_params
}.

(** The percentage printed for one tier: [len(tier)/len(deltas)*100]. *)
Definition report_share (n total : nat) : result Q :=
  r ← py_truediv (inject_Z (Z.of_nat n)) (inject_Z (Z.of_nat total));
  Ok (r * 100)%Q.

Definition compress_audio_delta (self : t) (audio : list Q)
  : result encoded_result :=
  let deltas := np_diff audio in
  let small_deltas := List.filter (small_mask self) deltas in
  let medium_deltas := List.filter (medium_mask self) deltas in
  let large_deltas := List.filter (large_mask self) deltas in
  _ ← report_share (length small_deltas) (length deltas);
  _ ← report_share (length medium_deltas) (length deltas);
  _ ← report_share (length large_deltas) (length deltas);
  a0 ← py_first audio;
  let first := py_int (a0 * 32767)%Q in
  data ← encode_deltas self deltas [Entry reference 16 first];
  let total_bits := foldr Z.add 0 (map e_bits data) in
  let orig_bits := Z.of_nat (length audio) * 16 in
  ratio ← py_truediv (inject_Z orig_bits) (inject_Z total_bits);
  Ok {| encoded_data := data;
        info := {| original_samples := Z.of_nat (length audio);
                   delta_samples := Z.of_nat (length deltas);
                   original_bits := orig_bits;
                   compressed_bits := total_bits;
                   compression_ratio := ratio;
                   distribution := (Z.of_nat (length small_deltas),
                                    Z.of_nat (length medium_deltas),
                                    Z.of_nat (length large_deltas)) |};
        params := {| first_sample := first;
                     small_threshold := small_delta_threshold self;
                     medium_threshold := medium_delta_threshold self;
                     dp_quantization_levels := quantization_levels self |} |}.

(** [reconstructed[-1]]. *)
Definition py_last {A} (xs : list A) : result A :=
  match last xs with
  | Some x => Ok x
  | None => Raise IndexError
  end.

(** One turn of the decoding loop. *)
Definition decode_step (self : t) (reconstructed : list Q) (e : entry)
  : result (list Q) :=
  n ← levels self (e_bits e);
  let max_val := n / 2 - 1 in
  delta ← py_truediv (inject_Z (e_value e)) (inject_Z max_val);
  prev ← py_last reconstructed;
  let next_sample := (prev + delta)%Q in
  Ok (reconstructed ++ [next_sample]).

Fixpoint decode_loop (self : t) (reconstructed : list Q) (es : list entry)
  : result (list Q) :=
  match es with
  | [] => Ok reconstructed
  | e :: rest =>
      r ← decode_step self reconstructed e;
      decode_loop self r rest
  end.

Definition decode_delta_data (self : t) (encoded : encoded_result)
  : result (list Q) :=
  s0 ← py_truediv (inject_Z (first_sample (params encoded))) 32767;
  decode_loop self [s0] (drop 1 (encoded_data encoded)).

(** *** pack_encoded_data

    The file [f] is the list of bytes written so far. *)

(** [while bits_in_buffer >= 8]: write the low byte and shift it out.  The
    loop runs [bits_in_buffer // 8] times; [fuel] bounds its turns. *)
Fixpoint flush_bytes (fuel : nat) (f : list Z) (bit_buffer bits_in_buffer : Z)
  : list Z * Z * Z :=
  match fuel with
  | O => (f, bit_buffer, bits_in_buffer)
  | S fuel' =>
      if 8 <=? bits_in_buffer then
        flush_bytes fuel' (f ++ [Z.land bit_buffer 255])
                    (Z.shiftr bit_buffer 8) (bits_in_buffer - 8)
      else (f, bit_buffer, bits_in_buffer)
  end.

(** One turn of [for entry_type, bits, value in encoded_data]. *)
Definition pack_entry (st : list Z * Z * Z) (e : entry) : result (list Z * Z * Z) :=
  let '(f, bit_buffer, bits_in_buffer) := st in
  let bits := e_bits e in
  let value := e_value e in
  if bits <? 0 then Raise (ValueError "negative shift count") else
  let bit_buffer :=
    Z.lor bit_buffer
          (Z.shiftl (Z.land value (Z.shiftl 1 bits - 1)) bits_in_buffer) in
  let bits_in_buffer := bits_in_buffer + bits in
  Ok (flush_bytes (Z.to_nat bits_in_buffer) f bit_buffer bits_in_buffer).

Fixpoint pack_entries (st : list Z * Z * Z) (es : list entry)
  : result (list Z * Z * Z) :=
  match es with
  | [] => Ok st
  | e :: rest => st' ← pack_entry st e; pack_entries st' rest
  end.

(** The packing loop and the final flush, started on the file [f]. *)
Definition pack_bits (f : list Z) (es : list entry) : result (list Z) :=
  st ← pack_entries (f, 0, 0) es;
  let '(f, bit_buffer, bits_in_buffer) := st in
  if 0 <? bits_in_buffer then Ok (f ++ [Z.land bit_buffer 255]) else Ok f.

(** The bytes of the file written by [pack_encoded_data]. *)
Definition pack_encoded_data (encoded_data : list entry) : result (list Z) :=
  let f := bytes_of_string "PGDD" in
  count ← struct_pack_I (Z.of_nat (length encoded_data));
  let f := f ++ count in
  pack_bits f encoded_data.

(** The bit widths of the entries that encode a delta. *)
Definition delta_width (e : entry) : Prop :=
  e_bits e = 4 \/ e_bits e = 8 \/ e_bits e = 12.

(** [process_audio_file], its codec calls only: compress, then pack the
    encoded entries into the [.pgdd] file. *)
Definition compress_and_pack (self : t) (audio : list Q) : result (list Z) :=
  compressed_result ← compress_audio_delta self audio;
  pack_encoded_data (encoded_data compressed_result).

(** [process_audio_file], its codec calls only: compress, then the test
    decode of the compressed result. *)
Definition compress_and_decode (self : t) (audio : list Q) : result (list Q) :=
  compressed_result ← compress_audio_delta self audio;
  decode_delta_data self compressed_result.

End DeltaEncoder.

(** ** The bit unpacker *)

Module BitUnpacker.

(** Modelled from the spec: [unpack], the reader of the packed bitstream.
    The repository writes the bitstream ([pack_encoded_data]) but has no
    code that reads it back; what follows is the design document's
    description: keep the packer's accumulator and bit count, pull bytes
    while the requested width is not available, fail with
    [TruncatedStream] when the buffer runs out. *)
Fixpoint refill (buffer : list Z) (acc nbits width : Z) {struct buffer}
  : result (list Z * Z * Z) :=
  if width <=? nbits then Ok (buffer, acc, nbits)
  else match buffer with
       | [] => Raise TruncatedStream
       | b :: rest => refill rest (Z.lor acc (Z.shiftl b nbits)) (nbits + 8) width
       end.

(** Modelled from the spec: the loop of [unpack] over the requested widths. *)
Fixpoint unpack_from (buffer : list Z) (acc nbits : Z) (widths : list Z)
  : result (list Z) :=
  match widths with
  | [] => Ok []
  | w :: ws =>
      st ← refill buffer acc nbits w;
      let '(buffer, acc, nbits) := st in
      let code := Z.land acc (Z.shiftl 1 w - 1) in
      codes ← unpack_from buffer (Z.shiftr acc w) (nbits - w) ws;
      Ok (code :: codes)
  end.

(** Modelled from the spec: [unpack(buffer, widths)]. *)
Definition unpack (buffer : list Z) (widths : list Z) : result (list Z) :=
  unpack_from buffer 0 0 widths.

End BitUnpacker.

(** ** gba_optimized_codec.py

    The function [gba_optimized_compression], from the resampled waveform
    on: [encode] is the part that writes the [.pgda] file, [decode] the part
    that reads it back ("Test decode to verify quality"). *)

Module GBA.

(** The state of numpy's process-wide generator, seen as the sequence of
    [triangular(-0.5, 0, 0.5)] variates it will hand out next. *)
Definition RandomState : Type := nat -> Q.

(** [np.random.triangular(-0.5, 0, 0.5, size=n)]: [n] variates, and the
    generator advanced past them. *)
Definition np_random_triangular (n : nat) (g : RandomState)
  : list Q * RandomState :=
  (map g (seq 0 n), fun i => g (i + n)%nat).

Definition Qmax2 (x y : Q) : Q := if Qltb x y then y else x.

(** [np.max(np.abs(a))]; a reduction of an empty array is a [ValueError]. *)
Definition np_max_abs (a : list Q) : result Q :=
  match a with
  | [] => Raise (ValueError "zero-size array to reduction operation maximum which has no identity")
  | x :: rest => Ok (foldl Qmax2 (Qabs x) (map Qabs rest))
  end.

(** [np.min(a)], [np.max(a)] of an integer array, as printed. *)
Definition np_min (a : list Z) : result Z :=
  match a with
  | [] => Raise (ValueError "zero-size array to reduction operation minimum which has no identity")
  | x :: rest => Ok (foldl Z.min x rest)
  end.

Definition np_max (a : list Z) : result Z :=
  match a with
  | [] => Raise (ValueError "zero-size array to reduction operation maximum which has no identity")
  | x :: rest => Ok (foldl Z.max x rest)
  end.

(** [np.round]: to the nearest integer, halves to the even one. *)
Definition np_round (x : Q) : Z :=
  let f := Qfloor x in
  match Qcompare (x - inject_Z f) (1 # 2) with
  | Lt => f
  | Gt => f + 1
  | Eq => if Z.even f then f else f + 1
  end.

(** [np.clip(v, lo, hi)]. *)
Definition np_clip (lo hi v : Z) : Z := Z.min hi (Z.max lo v).

(** [np.diff] of an integer array (taken at [int16], where the difference
    of two 8-bit values cannot overflow). *)
Fixpoint np_diff_int (a : list Z) : list Z :=
  match a with
  | x :: (y :: _) as tl => (y - x) :: np_diff_int tl
  | _ => []
  end.

(** The two's complement byte of an [int8], and back ([tobytes],
    [frombuffer] at [dtype=np.int8]). *)
Definition int8_to_byte (v : Z) : Z := Z.land v 255.
Definition byte_to_int8 (b : Z) : Z := if b <? 128 then b else b - 256.

(** The range of an [int8]. *)
Definition in_int8 (v : Z) : Prop := -128 <= v <= 127.

(** [np.int8 + np.int8]: the sum wraps around to the 8-bit range. *)
Definition wrap8 (z : Z) : Z := (z + 128) mod 256 - 128.
Definition int8_add (a b : Z) : Z := wrap8 (a + b).

(** [np.array([n], dtype=np.uint32).tobytes()] on a little-endian host. *)
Definition uint32_tobytes (n : Z) : result (list Z) :=
  if (0 <=? n) && (n <? 2 ^ 32) then Ok (le_bytes 4 n) else Raise OverflowError.

(** The value of little-endian bytes. *)
Fixpoint le_combine (bs : list Z) : Z :=
  match bs with
  | [] => 0
  | b :: rest => b + 256 * le_combine rest
  end.

(** [np.frombuffer(b, dtype=np.uint32)[0]]. *)
Definition frombuffer_uint32_0 (b : list Z) : result Z :=
  if negb (Nat.eqb (length b mod 4) 0) then
    Raise (ValueError "buffer size must be a multiple of element size")
  else match b with
       | [] => Raise IndexError
       | _ => Ok (le_combine (take 4 b))
       end.

(** [np.frombuffer(b, dtype=np.int8)[0]]. *)
Definition frombuffer_int8_0 (b : list Z) : result Z :=
  match b with
  | [] => Raise IndexError
  | x :: _ => Ok (byte_to_int8 x)
  end.

Definition target_sr : Z := 6750.
Definition magic : list Z := bytes_of_string "FQWT".

(** Steps 2 of the source: scaling to the peak. *)
Definition scale_of_peak (audio_peak : Q) : Q :=
  if Qltb 0 audio_peak then (121 / audio_peak)%Q else 127%Q.

(** Dither, round, clip: the 8-bit samples. *)
Definition quantize_8bit (audio_scaled dither : list Q) : list Z :=
  zip_with (fun a d => np_clip (-128) 127 (np_round (a + d)%Q)) audio_scaled dither.

(** The clipped 8-bit deltas. *)
Definition delta_8bit (audio_8bit : list Z) : list Z :=
  map (np_clip (-128) 127) (np_diff_int audio_8bit).

(** The encoding half: the bytes of the [.pgda] file and the generator
    after the dither was drawn. *)
Definition encode (audio_resampled : list Q) (g : RandomState)
  : result (list Z * RandomState) :=
  audio_peak ← np_max_abs audio_resampled;
  let optimal_scale := scale_of_peak audio_peak in
  let audio_scaled := map (fun a => (a * optimal_scale)%Q) audio_resampled in
  let '(dither, g) := np_random_triangular (length audio_scaled) g in
  let audio_8bit := quantize_8bit audio_scaled dither in
  _ ← np_min audio_8bit;
  _ ← np_max audio_8bit;
  let deltas := delta_8bit audio_8bit in
  first_sample ← py_first audio_8bit;
  _ ← np_min deltas;
  _ ← np_max deltas;
  sr ← uint32_tobytes target_sr;
  count ← uint32_tobytes (Z.of_nat (length deltas));
  Ok (magic ++ sr ++ count ++ [int8_to_byte first_sample]
        ++ map int8_to_byte deltas, g).

(** The loop [for delta in deltas] of the decoding half. *)
Fixpoint reconstruct (current_sample : Z) (reconstructed deltas : list Z)
  : list Z :=
  match deltas with
  | [] => reconstructed
  | delta :: rest =>
      let next_sample := int8_add current_sample delta in
      let next_sample := Z.max (-128) (Z.min 127 next_sample) in
      reconstruct next_sample (reconstructed ++ [next_sample]) rest
  end.

(** The decoding half: the reconstructed waveform and the sample rate. *)
Definition decode (file : list Z) : result (list Q * Z) :=
  if negb (bool_decide (take 4 file = magic)) then Raise (ValueError "Bad magic")
  else
    let f := drop 4 file in
    sample_rate ← frombuffer_uint32_0 (take 4 f);
    let f := drop 4 f in
    num_deltas ← frombuffer_uint32_0 (take 4 f);
    let f := drop 4 f in
    first_sample ← frombuffer_int8_0 (take 1 f);
    let f := drop 1 f in
    let deltas := map byte_to_int8 f in
    let reconstructed := reconstruct first_sample [first_sample] deltas in
    let reconstructed_audio :=
      map (fun s => (inject_Z s / 127)%Q) (removelast reconstructed) in
    Ok (reconstructed_audio, sample_rate).


(** Encoding followed by the test decode, as the function runs them. *)
Definition gba_optimized_compression (audio_resampled : list Q) (g : RandomState)
  : result (list Z * list Q * RandomState) :=
  r ← encode audio_resampled g;
  let '(file, g) := r in
  d ← decode file;
  Ok (file, d.1, g).

End GBA.

(** ** ffmpeg_to_pgda.py and ffmpeg_comparison_codec.py: the PGDA writers

    Both functions turn the waveform decoded by the external transcoder
    into 8-bit samples and write them as first sample plus deltas; they
    return here the bytes of the file they write. *)

Module FFmpeg.

(** [astype(np.int8)] of an integral float: exact inside the [int8] range
    (the only case the properties below rely on), wrapped outside. *)
Definition astype_int8 (v : Z) : Z := GBA.wrap8 v.

(** [np.round(audio * 127).astype(np.int8)]. *)
Definition audio_to_8bit (audio : list Q) : list Z :=
  map (fun a => astype_int8 (GBA.np_round (a * 127)%Q)) audio.

(** [np.diff] of an [int8] array: the differences are taken at [int8] and
    wrap around. *)
Definition np_diff_int8 (a : list Z) : list Z :=
  map GBA.wrap8 (GBA.np_diff_int a).

(** The four writes after the tag, shared by the two functions. *)
Definition write_body (f : list Z) (sample_rate first_sample : Z)
    (deltas : list Z) : result (list Z) :=
  sr ← GBA.uint32_tobytes sample_rate;
  count ← GBA.uint32_tobytes (Z.of_nat (length deltas));
  Ok (f ++ sr ++ count ++ [GBA.int8_to_byte first_sample]
        ++ map GBA.int8_to_byte deltas).

(** [ffmpeg_to_pgda], from the decoded waveform [audio_data] on. *)
Definition ffmpeg_to_pgda (audio_data : list Q) : result (list Z) :=
  let target_sr := 11025 in
  let audio_8bit := audio_to_8bit audio_data in
  let deltas := np_diff_int8 audio_8bit in
  first_sample ← py_first audio_8bit;
  write_body (bytes_of_string "FQWT") target_sr first_sample deltas.

(** [create_ffmpeg_pgda_file], from the decoded waveform [audio] on; the
    delta range is printed after the file is closed. *)
Definition create_ffmpeg_pgda_file (audio : list Q) (sample_rate : Z)
  : result (list Z) :=
  let audio_8bit := audio_to_8bit audio in
  let deltas := np_diff_int8 audio_8bit in
  first_sample ← py_first audio_8bit;
  file ← write_body (bytes_of_string "FFMP") sample_rate first_sample deltas;
  _ ← GBA.np_min deltas;
  _ ← GBA.np_max deltas;
  Ok file.

End FFmpeg.

(** ** compression_analyzer.py: analyze_delta_compression *)

Module Analyzer.

(** [int(np.sum(mask))]: the number of deltas that pass a test. *)
Definition count (test : Q -> bool) (deltas : list Q) : Z :=
  Z.of_nat (length (List.filter test deltas)).

Definition np_sum (a : list Q) : Q := foldr Qplus 0%Q a.

(** [np.mean]; on an empty array numpy warns and gives [nan], which is not
    modelled: the function raises right after on such an input. *)
Definition np_mean (a : list Q) : Q :=
  (np_sum a / inject_Z (Z.of_nat (length a)))%Q.

(** [np.var]: the mean squared distance to the mean. *)
Definition np_var (a : list Q) : Q :=
  let m := np_mean a in
  np_mean (map (fun x => ((x - m) * (x - m))%Q) a).

Record delta_stats : Type := {
  mean_delta : Q;
  max_delta : Q;
  delta_variance : Q;
  zero_deltas : Z;
  small_deltas : Z;
  medium_deltas : Z;
  large_deltas : Z
}.

Record compression_potential : Type := {
  avg_bits_per_delta : Q;
  compression_ratio : Q;
  space_savings_percent : Q
}.

Record bit_allocation : Type := {
  small_deltas_4bit : Q;
  medium_deltas_8bit : Q;
  large_deltas_12bit : Q
}.

Record delta_analysis : Type := {
  stats : delta_stats;
  potential : compression_potential;
  allocation : bit_allocation
}.

Definition analyze_delta_compression (audio : list Q) : result delta_analysis :=
  let deltas := np_diff audio in
  let mean := np_mean (map Qabs deltas) in
  max ← GBA.np_max_abs deltas;
  let delta_stats := {|
    mean_delta := mean;
    max_delta := max;
    delta_variance := np_var deltas;
    zero_deltas := count (fun d => Qeq_bool d 0) deltas;
    small_deltas := count (fun d => Qltb (Qabs d) (1 # 100)) deltas;
    medium_deltas :=
      count (fun d => Qgeb (Qabs d) (1 # 100) && Qltb (Qabs d) (1 # 10)) deltas;
    large_deltas := count (fun d => Qgeb (Qabs d) (1 # 10)) deltas |} in
  let total_deltas := inject_Z (Z.of_nat (length deltas)) in
  small_ratio ← py_truediv (inject_Z (small_deltas delta_stats)) total_deltas;
  medium_ratio ← py_truediv (inject_Z (medium_deltas delta_stats)) total_deltas;
  large_ratio ← py_truediv (inject_Z (large_deltas delta_stats)) total_deltas;
  let avg_bits := (small_ratio * 4 + medium_ratio * 8 + large_ratio * 12)%Q in
  delta_compression_ratio ← py_truediv 16 avg_bits;
  inv ← py_truediv 1 delta_compression_ratio;
  Ok {| stats := delta_stats;
        potential := {| avg_bits_per_delta := avg_bits;
                        compression_ratio := delta_compression_ratio;
                        space_savings_percent := ((1 - inv) * 100)%Q |};
        allocation := {| small_deltas_4bit := small_ratio;
                         medium_deltas_8bit := medium_ratio;
                         large_deltas_12bit := large_ratio |} |}.

End Analyzer.

(** ** decoder/bin2c.py

    [bin2c] writes a C source file; the model returns its text.  The input
    is the name of the binary file ([Path(input_file).name]), its bytes and
    the array name. *)

Module Bin2C.

Definition newline : string := String (Ascii.ascii_of_nat 10) EmptyString.

(** One digit of the [x] format. *)
Definition hex_digit (n : Z) : Ascii.ascii :=
  match n with
  | 0%Z => "0" | 1%Z => "1" | 2%Z => "2" | 3%Z => "3"
  | 4%Z => "4" | 5%Z => "5" | 6%Z => "6" | 7%Z => "7"
  | 8%Z => "8" | 9%Z => "9" | 10%Z => "a" | 11%Z => "b"
  | 12%Z => "c" | 13%Z => "d" | 14%Z => "e" | _ => "f"
  end%char.

(** [f"0x{byte:02x}"], for a byte in [0, 256). *)
Definition hex_literal (byte : Z) : string :=
  "0x" +:+ String (hex_digit (byte / 16))
                  (String (hex_digit (byte mod 16)) EmptyString).

(** The loop [for i, byte in enumerate(data)], from index [i] on; [len] is
    [len(data)] of the whole input. *)
Fixpoint write_bytes (i len : nat) (data : list Z) : string :=
  match data with
  | [] => ""
  | byte :: rest =>
      (if (i mod 16 =? 0)%nat then "    " else "")
      +:+ hex_literal byte
      +:+ (if (i <? len - 1)%nat then "," else "")
      +:+ (if (i mod 16 =? 15)%nat then newline
          else if (i <? len - 1)%nat then " " else "")
      +:+ write_bytes (S i) len rest
  end.

Definition bin2c (input_name : string) (data : list Z) (array_name : string)
  : string :=
  let len := length data in
  "// Auto-generated from " +:+ input_name +:+ newline
  +:+ "// File size: " +:+ pretty len +:+ " bytes" +:+ newline +:+ newline
  +:+ "const unsigned char " +:+ array_name +:+ "[] = {" +:+ newline
  +:+ write_bytes 0 len data
  +:+ (if negb (len mod 16 =? 0)%nat then newline else "")
  +:+ "};" +:+ newline +:+ newline
  +:+ "const unsigned int " +:+ array_name +:+ "_size = " +:+ pretty len +:+ ";"
  +:+ newline.

(** The layout in words: the values in rows of 16, each row indented by
    four spaces with its values separated by a comma and a space, the rows
    separated by a comma and a line break, a line break after the last. *)
Fixpoint rows16 (data : list Z) (row : list Z) : list (list Z) :=
  match data with
  | [] => match row with [] => [] | _ => [row] end
  | byte :: rest =>
      if (length row =? 15)%nat then (row ++ [byte])%list :: rows16 rest []
      else rows16 rest (row ++ [byte])%list
  end.

Definition row_text (row : list Z) : string :=
  "    " +:+ String.concat ", " (map hex_literal row).

Definition array_text (data : list Z) : string :=
  match data with
  | [] => ""
  | _ => String.concat ("," +:+ newline) (map row_text (rows16 data [])) +:+ newline
  end.

End Bin2C.

(** ** Reading a bitstream as one number

    Specification-side definitions used to state what the packer writes. *)

Module Stream.
Import DeltaEncoder.

(** The codes, masked to their widths, concatenated least significant
    first. *)
Fixpoint value (es : list entry) : Z :=
  match es with
  | [] => 0
  | e :: rest => e_value e mod 2 ^ e_bits e + 2 ^ e_bits e * value rest
  end.

(** The total number of bits. *)
Fixpoint bits (es : list entry) : Z :=
  match es with
  | [] => 0
  | e :: rest => e_bits e + bits rest
  end.

(** Successive fields of [v], of the given widths, least significant
    first. *)
Fixpoint slices (v : Z) (widths : list Z) : list Z :=
  match widths with
  | [] => []
  | w :: ws => v mod 2 ^ w :: slices (v / 2 ^ w) ws
  end.

End Stream.

(** ** Binary64, as far as the properties need it

    The code computes on binary64 floats, the definitions above exactly.
    The properties that depend on a rounded result are stated with the two
    notions below. *)

Module Binary64.


(** Magnitudes at which no difference or product computed by the codecs
    overflows: the largest factor is 32767 < 2^15, and binary64 reaches
    2^1024. *)
Definition in_range (x : Q) : Prop := (Qabs x <= inject_Z (2 ^ 1000))%Q.

End Binary64.

(** ** The quantizer in the design document's words *)

Module Spec.


(** [n] is [x] with its fraction dropped (rounding toward zero). *)
Definition truncated (x : Q) (n : Z) : Prop :=
  ((0 <= x -> inject_Z n <= x /\ x < inject_Z n + 1)
   /\ (x <= 0 -> inject_Z n - 1 < x /\ x <= inject_Z n))%Q.


End Spec.

(** * Properties *)

(** ** The exception monad *)

Lemma bind_Ok {A B} (f : A -> result B) (x : A) : (Ok x ≫= f) = f x.
Proof. reflexivity. Qed.

(** ** Bit arithmetic of the packer *)

Section BitArith.

Lemma land_255 v : Z.land v 255 = v mod 256.
Proof. change 255 with (Z.ones 8). now rewrite Z.land_ones. Qed.

Lemma shiftr_8 v : Z.shiftr v 8 = v / 256.
Proof. now rewrite Z.shiftr_div_pow2. Qed.

Lemma land_mask v bits : 0 <= bits -> Z.land v (Z.shiftl 1 bits - 1) = v mod 2 ^ bits.
Proof.
  intros Hb. rewrite Z.sub_1_r. change (Z.pred (Z.shiftl 1 bits)) with (Z.ones bits).
  now apply Z.land_ones.
Qed.

Lemma lor_shiftl_add a c k :
  0 <= k -> 0 <= a < 2 ^ k -> Z.lor a (Z.shiftl c k) = a + c * 2 ^ k.
Proof.
  intros Hk Ha.
  assert (Hdisj : Z.land a (Z.shiftl c k) = 0).
  { apply Z.bits_inj'. intros n Hn. rewrite Z.land_spec, Z.bits_0.
    destruct (Z.lt_ge_cases n k) as [Hlt | Hge].
    - rewrite Z.shiftl_spec_low by assumption. apply andb_false_r.
    - rewrite <- (Z.mod_small a (2 ^ k)) by assumption.
      rewrite Z.mod_pow2_bits_high by lia. reflexivity. }
  rewrite <- Z.shiftl_mul_pow2 by assumption.
  rewrite Z.add_nocarry_lxor by assumption.
  symmetry. now apply Z.lxor_lor.
Qed.

Lemma le_bytes_S n v : le_bytes (S n) v = v mod 256 :: le_bytes n (v / 256).
Proof. simpl. now rewrite land_255, shiftr_8. Qed.

Lemma length_le_bytes n v : length (le_bytes n v) = n.
Proof. revert v. induction n as [|n IH]; intros v; simpl; [reflexivity|]. now rewrite IH. Qed.

Lemma le_bytes_app a b v :
  le_bytes (a + b) v = le_bytes a v ++ le_bytes b (v / 2 ^ (8 * Z.of_nat a)).
Proof.
  revert v. induction a as [|a IH]; intros v.
  - simpl. now rewrite Z.div_1_r.
  - change (S a + b)%nat with (S (a + b)). rewrite !le_bytes_S, IH. simpl. do 3 f_equal.
    rewrite Z.div_div by lia. f_equal.
    replace (8 * Z.of_nat (S a)) with (8 + 8 * Z.of_nat a) by lia.
    rewrite Z.pow_add_r by lia. reflexivity.
Qed.

Lemma le_bytes_high a x y :
  le_bytes a (x + 2 ^ (8 * Z.of_nat a) * y) = le_bytes a x.
Proof.
  revert x y. induction a as [|a IH]; intros x y; [reflexivity|].
  rewrite !le_bytes_S.
  replace (8 * Z.of_nat (S a)) with (8 + 8 * Z.of_nat a) by lia.
  rewrite Z.pow_add_r by lia. change (2 ^ 8) with 256.
  replace (x + 256 * 2 ^ (8 * Z.of_nat a) * y)
    with (x + (2 ^ (8 * Z.of_nat a) * y) * 256) by ring.
  rewrite Z.div_add by lia. rewrite Z_mod_plus_full. now rewrite IH.
Qed.

End BitArith.

(** ** The packer writes the little-endian bytes of the stream *)

Section PackSpec.
Import DeltaEncoder.

Lemma flush_bytes_spec fuel f buf k :
  0 <= k -> k / 8 <= Z.of_nat fuel ->
  flush_bytes fuel f buf k
  = (f ++ le_bytes (Z.to_nat (k / 8)) buf, buf / 2 ^ (8 * (k / 8)), k mod 8).
Proof.
  revert f buf k. induction fuel as [|fuel IH]; intros f buf k Hk Hfuel.
  - assert (Hq : k / 8 = 0) by (pose proof (Z.div_pos k 8); lia).
    simpl. rewrite Hq. simpl. rewrite app_nil_r, Z.div_1_r.
    apply Z.div_small_iff in Hq; [|lia].
    rewrite Z.mod_small by lia. reflexivity.
  - simpl. destruct (8 <=? k) eqn:Hge.
    + apply Z.leb_le in Hge.
      assert (Hq : (k - 8) / 8 = k / 8 - 1).
      { replace (k - 8) with (k + (-1) * 8) by lia. rewrite Z.div_add by lia. lia. }
      assert (Hq1 : 1 <= k / 8) by (apply Z.div_le_lower_bound; lia).
      rewrite IH by lia. rewrite Hq.
      replace (Z.to_nat (k / 8)) with (S (Z.to_nat (k / 8 - 1))) by lia.
      rewrite le_bytes_S, land_255, shiftr_8. rewrite <- app_assoc. simpl.
      f_equal; [f_equal|].
      * rewrite Z.div_div by lia. f_equal.
        replace (8 * (k / 8)) with (8 + 8 * (k / 8 - 1)) by lia.
        rewrite Z.pow_add_r by lia. reflexivity.
      * replace (k - 8) with (k + (-1) * 8) by lia. now rewrite Z_mod_plus_full.
    + apply Z.leb_gt in Hge.
      rewrite Z.div_small, Z.mod_small by lia. simpl.
      now rewrite app_nil_r, Z.div_1_r.
Qed.

Lemma stream_bits_nonneg es :
  Forall (fun e => 0 <= e_bits e) es -> 0 <= Stream.bits es.
Proof. induction 1; simpl; lia. Qed.

Lemma pack_entries_spec es : forall f buf k,
  0 <= k < 8 -> 0 <= buf < 2 ^ k ->
  Forall (fun e => 0 <= e_bits e) es ->
  let T := k + Stream.bits es in
  let V := buf + 2 ^ k * Stream.value es in
  pack_entries (f, buf, k) es
  = Ok (f ++ le_bytes (Z.to_nat (T / 8)) V, V / 2 ^ (8 * (T / 8)), T mod 8).
Proof.
  induction es as [|e rest IH]; intros f buf k Hk Hbuf Hall; cbn zeta.
  - simpl. rewrite !Z.add_0_r, Z.mul_0_r, Z.add_0_r.
    rewrite Z.div_small, Z.mod_small by lia. simpl.
    now rewrite app_nil_r, Z.div_1_r.
  - inversion Hall as [|? ? Hb Hrest]; subst.
    pose proof (stream_bits_nonneg _ Hrest) as HT.
    simpl pack_entries. unfold pack_entry.
    destruct (e_bits e <? 0) eqn:Hneg; [apply Z.ltb_lt in Hneg; lia|].
    rewrite land_mask by assumption.
    rewrite lor_shiftl_add by lia.
    set (c := e_value e mod 2 ^ e_bits e).
    set (k1 := k + e_bits e).
    set (buf1 := buf + c * 2 ^ k).
    assert (Hc : 0 <= c < 2 ^ e_bits e) by (apply Z.mod_pos_bound; lia).
    assert (Hbuf1 : 0 <= buf1 < 2 ^ k1).
    { unfold buf1, k1. rewrite Z.pow_add_r by lia.
      assert (0 < 2 ^ k) by lia. nia. }
    rewrite flush_bytes_spec by (unfold k1; try lia; rewrite Z2Nat.id by lia;
                                 apply Z.div_le_upper_bound; lia).
    set (q := k1 / 8).
    assert (Hq : 0 <= q) by (apply Z.div_pos; unfold k1; lia).
    assert (Hk1 : k1 = 8 * q + k1 mod 8) by (apply Z.div_mod; lia).
    assert (Hr : 0 <= k1 mod 8 < 8) by (apply Z.mod_pos_bound; lia).
    change (mbind ?g (Ok ?x)) with (g x). cbv beta.
    assert (Hbuf' : 0 <= buf1 / 2 ^ (8 * q) < 2 ^ (k1 mod 8)).
    { split; [apply Z.div_pos; lia|].
      apply Z.div_lt_upper_bound; [lia|].
      rewrite <- Z.pow_add_r by lia. now rewrite <- Hk1. }
    rewrite (IH _ _ _ Hr Hbuf' Hrest).
    simpl Stream.bits. simpl Stream.value. fold c.
    assert (HV : buf + 2 ^ k * (c + 2 ^ e_bits e * Stream.value rest)
                 = buf1 + 2 ^ (8 * q) * (2 ^ (k1 mod 8) * Stream.value rest)).
    { unfold buf1. rewrite Z.mul_assoc, <- Z.pow_add_r by lia. rewrite <- Hk1.
      unfold k1. rewrite Z.pow_add_r by lia. ring. }
    rewrite HV.
    assert (HTq : (k + (e_bits e + Stream.bits rest)) / 8
                  = q + (k1 mod 8 + Stream.bits rest) / 8).
    { replace (k + (e_bits e + Stream.bits rest))
        with ((k1 mod 8 + Stream.bits rest) + q * 8) by (unfold k1 in *; lia).
      rewrite Z.div_add by lia. lia. }
    assert (HTm : (k + (e_bits e + Stream.bits rest)) mod 8
                  = (k1 mod 8 + Stream.bits rest) mod 8).
    { replace (k + (e_bits e + Stream.bits rest))
        with ((k1 mod 8 + Stream.bits rest) + q * 8) by (unfold k1 in *; lia).
      now rewrite Z_mod_plus_full. }
    rewrite HTq, HTm.
    set (r := (k1 mod 8 + Stream.bits rest) / 8).
    assert (Hr0 : 0 <= r) by (apply Z.div_pos; lia).
    assert (Hdiv : (buf1 + 2 ^ (8 * q) * (2 ^ (k1 mod 8) * Stream.value rest)) / 2 ^ (8 * q)
                   = buf1 / 2 ^ (8 * q) + 2 ^ (k1 mod 8) * Stream.value rest).
    { rewrite (Z.mul_comm (2 ^ (8 * q))). rewrite Z.div_add by lia. reflexivity. }
    replace (Z.to_nat (q + r)) with (Z.to_nat q + Z.to_nat r)%nat by lia.
    rewrite le_bytes_app. rewrite !Z2Nat.id by lia.
    rewrite Hdiv.
    replace (8 * (q + r)) with (8 * q + 8 * r) by lia.
    rewrite Z.pow_add_r by lia. rewrite <- Z.div_div by lia. rewrite Hdiv.
    pose proof (le_bytes_high (Z.to_nat q) buf1
                  (2 ^ (k1 mod 8) * Stream.value rest)) as Hhigh.
    rewrite Z2Nat.id in Hhigh by lia. rewrite Hhigh.
    now rewrite app_assoc.
Qed.

End PackSpec.

Section RoundTrip.
Import DeltaEncoder BitUnpacker.

Lemma pack_bits_spec f es :
  Forall (fun e => 0 <= e_bits e) es ->
  pack_bits f es
  = Ok (f ++ le_bytes (Z.to_nat ((Stream.bits es + 7) / 8)) (Stream.value es)).
Proof.
  intros Hall. unfold pack_bits.
  pose proof (stream_bits_nonneg _ Hall) as HT.
  rewrite (pack_entries_spec es f 0 0) by (simpl; lia || assumption).
  cbn zeta. change (mbind ?g (Ok ?x)) with (g x). cbv beta iota.
  rewrite Z.add_0_l, Z.pow_0_r, Z.mul_1_l, !Z.add_0_l.
  set (T := Stream.bits es) in *. set (V := Stream.value es).
  pose proof (Z.div_mod T 8 ltac:(lia)) as HTdm.
  pose proof (Z.mod_pos_bound T 8 ltac:(lia)) as Hm.
  assert (Hq : 0 <= T / 8) by (apply Z.div_pos; lia).
  destruct (0 <? T mod 8) eqn:Hpad; [apply Z.ltb_lt in Hpad | apply Z.ltb_ge in Hpad].
  - assert (Hc : (T + 7) / 8 = T / 8 + 1).
    { replace (T + 7) with ((T mod 8 + 7) + (T / 8) * 8) by lia.
      rewrite Z.div_add by lia.
      assert ((T mod 8 + 7) / 8 = 1); [|lia].
      symmetry. apply (Z.div_unique _ 8 1 (T mod 8 - 1)); lia. }
    rewrite Hc. replace (Z.to_nat (T / 8 + 1)) with (Z.to_nat (T / 8) + 1)%nat by lia.
    rewrite le_bytes_app, Z2Nat.id by lia.
    rewrite <- app_assoc. simpl le_bytes. now rewrite land_255.
  - assert (Hc : (T + 7) / 8 = T / 8).
    { replace (T + 7) with (7 + (T / 8) * 8) by lia.
      rewrite Z.div_add by lia. reflexivity. }
    now rewrite Hc.
Qed.

Lemma refill_spec n : forall W acc m w,
  0 <= m -> 0 <= acc < 2 ^ m -> w <= m + 8 * Z.of_nat n ->
  exists n' W' acc' m',
    refill (le_bytes n W) acc m w = Ok (le_bytes n' W', acc', m')
    /\ 0 <= m' /\ 0 <= acc' < 2 ^ m' /\ w <= m'
    /\ acc' + 2 ^ m' * W' = acc + 2 ^ m * W
    /\ m' + 8 * Z.of_nat n' = m + 8 * Z.of_nat n.
Proof.
  induction n as [|n IH]; intros W acc m w Hm Hacc Hw.
  - exists 0%nat, W, acc, m. simpl.
    destruct (w <=? m) eqn:Hle; [|apply Z.leb_gt in Hle; lia].
    apply Z.leb_le in Hle. repeat split; lia || reflexivity.
  - destruct (w <=? m) eqn:Hle.
    + exists (S n), W, acc, m. simpl. rewrite Hle. apply Z.leb_le in Hle.
      repeat split; lia || reflexivity.
    + rewrite le_bytes_S. simpl refill. rewrite Hle.
      pose proof (Z.mod_pos_bound W 256 ltac:(lia)) as Hb.
      rewrite lor_shiftl_add by lia.
      assert (Hacc1 : 0 <= acc + W mod 256 * 2 ^ m < 2 ^ (m + 8)).
      { rewrite Z.pow_add_r by lia. change (2 ^ 8) with 256.
        assert (0 < 2 ^ m) by lia. nia. }
      destruct (IH (W / 256) (acc + W mod 256 * 2 ^ m) (m + 8) w)
        as (n' & W' & acc' & m' & Heq & Hm' & Hacc' & Hw' & Hval & Hlen);
        [lia | assumption | lia |].
      exists n', W', acc', m'. repeat split; try assumption; try lia.
      rewrite Hval. rewrite Z.pow_add_r by lia. change (2 ^ 8) with 256.
      rewrite (Z.div_mod W 256) at 3 by lia. ring.
Qed.

Lemma unpack_from_spec ws : forall n W acc m,
  0 <= m -> 0 <= acc < 2 ^ m ->
  Forall (fun w => 0 <= w) ws ->
  foldr Z.add 0 ws <= m + 8 * Z.of_nat n ->
  unpack_from (le_bytes n W) acc m ws = Ok (Stream.slices (acc + 2 ^ m * W) ws).
Proof.
  induction ws as [|w ws IH]; intros n W acc m Hm Hacc Hall Hsum; [reflexivity|].
  inversion Hall as [|? ? Hw Hws]; subst. simpl in Hsum.
  assert (Hs : 0 <= foldr Z.add 0 ws) by (clear -Hws; induction Hws; simpl; lia).
  destruct (refill_spec n W acc m w)
    as (n' & W' & acc' & m' & Heq & Hm' & Hacc' & Hw' & Hval & Hlen);
    [lia | assumption | lia |].
  simpl unpack_from. rewrite Heq.
  change (mbind ?g (Ok ?x)) with (g x). cbv beta iota.
  rewrite land_mask by assumption. rewrite Z.shiftr_div_pow2 by assumption.
  assert (Hsplit : 2 ^ m' = 2 ^ (m' - w) * 2 ^ w).
  { rewrite <- Z.pow_add_r by lia. f_equal. lia. }
  assert (Hacc'' : 0 <= acc' / 2 ^ w < 2 ^ (m' - w)).
  { split; [apply Z.div_pos; lia|]. apply Z.div_lt_upper_bound; [lia|].
    rewrite Z.mul_comm, <- Hsplit. lia. }
  rewrite (IH n' W' (acc' / 2 ^ w) (m' - w)) by (assumption || lia).
  change (mbind ?g (Ok ?x)) with (g x). cbv beta.
  simpl Stream.slices. rewrite <- Hval.
  replace (acc' + 2 ^ m' * W') with (acc' + (2 ^ (m' - w) * W') * 2 ^ w)
    by (rewrite Hsplit; ring).
  rewrite Z_mod_plus_full, Z.div_add by lia. reflexivity.
Qed.

Lemma slices_value es :
  Forall (fun e => 0 <= e_bits e) es ->
  Stream.slices (Stream.value es) (map e_bits es)
  = map (fun e => e_value e mod 2 ^ e_bits e) es.
Proof.
  induction 1 as [|e rest Hb Hrest IH]; [reflexivity|].
  simpl. pose proof (Z.mod_pos_bound (e_value e) (2 ^ e_bits e) ltac:(lia)) as Hc.
  rewrite (Z.mul_comm (2 ^ e_bits e)).
  rewrite Z_mod_plus_full, Z.mod_mod, Z.div_add by lia.
  rewrite (Z.div_small (e_value e mod 2 ^ e_bits e)) by lia.
  rewrite Z.add_0_l, IH. reflexivity.
Qed.

(** Unpacking what the packer wrote, with the widths of the entries, gives
    every code masked to its width. *)
Lemma unpack_pack_masked f es :
  Forall (fun e => 0 <= e_bits e) es ->
  exists bs,
    pack_bits f es = Ok (f ++ bs)
    /\ Z.of_nat (length bs) = (Stream.bits es + 7) / 8
    /\ unpack bs (map e_bits es)
       = Ok (map (fun e => e_value e mod 2 ^ e_bits e) es).
Proof.
  intros Hall. pose proof (stream_bits_nonneg _ Hall) as HT.
  assert (Hq : 0 <= (Stream.bits es + 7) / 8) by (apply Z.div_pos; lia).
  eexists. split; [apply pack_bits_spec; assumption|].
  split; [rewrite length_le_bytes; lia|].
  unfold unpack. rewrite unpack_from_spec.
  - rewrite Z.pow_0_r, Z.add_0_l, Z.mul_1_l. now rewrite slices_value.
  - lia.
  - simpl. lia.
  - clear -Hall. induction Hall; simpl; constructor; assumption.
  - rewrite Z2Nat.id by lia.
    replace (foldr Z.add 0 (map e_bits es)) with (Stream.bits es)
      by (clear; induction es; simpl; congruence).
    pose proof (Z.div_mod (Stream.bits es + 7) 8 ltac:(lia)).
    pose proof (Z.mod_pos_bound (Stream.bits es + 7) 8 ltac:(lia)). lia.
Qed.

End RoundTrip.

(** ** C2: the bit-packing round trip *)

Section BitPackingRoundTrip.
Import DeltaEncoder BitUnpacker.

(** C2.  For every sequence of (width, code) entries with widths among 4,
    8, 12 and 16 and every code an unsigned value that fits its width, the
    packer writes [ceil(total bits / 8)] bytes, and unpacking those bytes
    with the same widths returns exactly the codes, whether or not the
    total bit length is a multiple of 8. *)
Theorem C2_unpack_pack_roundtrip (es : list entry) :
  Forall (fun e => (e_bits e = 4 \/ e_bits e = 8 \/ e_bits e = 12 \/ e_bits e = 16)
                   /\ 0 <= e_value e < 2 ^ e_bits e) es ->
  exists bs,
    pack_bits [] es = Ok bs
    /\ Z.of_nat (length bs) = (Stream.bits es + 7) / 8
    /\ unpack bs (map e_bits es) = Ok (map e_value es).
Proof.
  intros Hall.
  assert (Hnn : Forall (fun e => 0 <= e_bits e) es).
  { eapply Forall_impl; [exact Hall|]. cbv beta. intros e [Hw _]. lia. }
  destruct (unpack_pack_masked [] es Hnn) as (bs & Hpack & Hlen & Hun).
  exists bs. repeat split; try assumption.
  rewrite Hun. f_equal.
  clear -Hall. induction Hall as [|e rest [_ Hc] _ IH]; [reflexivity|].
  simpl. rewrite IH. f_equal. apply Z.mod_small. assumption.
Qed.

Lemma C2_witness :
  exists bs,
    pack_bits [] [Entry reference 16 65534; Entry small 4 13;
                  Entry large 12 1027; Entry small 4 9] = Ok bs
    /\ Z.of_nat (length bs) = (36 + 7) / 8
    /\ unpack bs [16; 4; 12; 4] = Ok [65534; 13; 1027; 9].
Proof.
  apply (C2_unpack_pack_roundtrip
           [Entry reference 16 65534; Entry small 4 13;
            Entry large 12 1027; Entry small 4 9]).
  repeat constructor; simpl; lia.
Defined.

End BitPackingRoundTrip.

(** ** C4, C5, C10: classification and quantization *)

Section Quantizer.
Import DeltaEncoder.

Lemma Qltb_lt x y : Qltb x y = true <-> (x < y)%Q.
Proof. unfold Qltb, Qlt. apply Z.ltb_lt. Qed.

Lemma Qltb_ge x y : Qltb x y = false <-> (y <= x)%Q.
Proof. unfold Qltb, Qle. apply Z.ltb_ge. Qed.

Lemma Qgeb_negb x y : Qgeb x y = negb (Qltb x y).
Proof. unfold Qgeb, Qle_bool, Qltb. apply Z.leb_antisym. Qed.

Lemma levels_init bits :
  levels init bits
  = if decide (bits = 4) then Ok 16
    else if decide (bits = 8) then Ok 256
    else if decide (bits = 12) then Ok 4096
    else Raise (KeyError bits).
Proof.
  unfold levels, init. cbn [quantization_levels].
  repeat case_decide; subst; try reflexivity.
  rewrite !lookup_insert_ne by congruence.
  rewrite lookup_singleton_ne by congruence. reflexivity.
Qed.

Lemma py_int_truncated x : Spec.truncated x (py_int x).
Proof.
  destruct x as [n d]. unfold Spec.truncated, py_int, Qle, Qlt. simpl.
  rewrite !Z.mul_1_r.
  split; intros Hsign.
  - rewrite Z.quot_div_nonneg by lia.
    pose proof (Z.div_mod n (Z.pos d) ltac:(lia)).
    pose proof (Z.mod_pos_bound n (Z.pos d) ltac:(lia)). nia.
  - assert (Hq : n ÷ Z.pos d = - (- n / Z.pos d)).
    { rewrite <- Z.quot_div_nonneg by lia. rewrite Z.quot_opp_l by lia. lia. }
    rewrite Hq.
    pose proof (Z.div_mod (- n) (Z.pos d) ltac:(lia)).
    pose proof (Z.mod_pos_bound (- n) (Z.pos d) ltac:(lia)). nia.
Qed.

Lemma py_int_div_1 x : py_int (x / 1)%Q = py_int x.
Proof.
  destruct x as [n d]. unfold py_int, Qdiv, Qmult, Qinv. simpl.
  now rewrite Z.mul_1_r, Pos.mul_1_r.
Qed.

Lemma quantize_delta_init delta bits :
  bits = 4 \/ bits = 8 \/ bits = 12 ->
  quantize_delta init delta bits
  = Ok (Z.max (- (2 ^ (bits - 1) - 1) - 1)
              (Z.min (2 ^ (bits - 1) - 1)
                     (py_int (delta * inject_Z (2 ^ (bits - 1) - 1))%Q))).
Proof.
  intros Hbits. unfold quantize_delta. rewrite levels_init.
  destruct Hbits as [-> | [-> | ->]]; simpl; rewrite py_int_div_1; reflexivity.
Qed.


(** C4.  Classification is a total function: a delta is Small (4 bits)
    exactly when its magnitude is below 0.01, Medium (8 bits) exactly when
    it is at least 0.01 and below 0.1, and Large (12 bits) exactly when it
    is at least 0.1.  An entry the encoding loop emits for the delta has
    that tier and that bit width, and the loop emits one for every delta of
    magnitude up to 2^1000. *)
Theorem C4_tier_partition (delta : Q) :
  (classify init delta = small <-> (Qabs delta < 1 # 100)%Q)
  /\ (classify init delta = medium
      <-> ((1 # 100) <= Qabs delta /\ Qabs delta < 1 # 10)%Q)
  /\ (classify init delta = large <-> ((1 # 10) <= Qabs delta)%Q)
  /\ tier_bits small = 4 /\ tier_bits medium = 8 /\ tier_bits large = 12
  /\ (forall e, encode_delta init delta = Ok e ->
        e_type e = classify init delta
        /\ e_bits e = tier_bits (classify init delta))
  /\ (Binary64.in_range delta ->
      exists quantized,
        encode_delta init delta
        = Ok (Entry (classify init delta) (tier_bits (classify init delta))
                    quantized)).
Proof.
  unfold classify, encode_delta.
  cbn [small_delta_threshold medium_delta_threshold init].
  destruct (Qltb (Qabs delta) (1 # 100)) eqn:Hs;
    [apply Qltb_lt in Hs | apply Qltb_ge in Hs;
     destruct (Qltb (Qabs delta) (1 # 10)) eqn:Hm;
       [apply Qltb_lt in Hm | apply Qltb_ge in Hm]].
  all: rewrite quantize_delta_init, bind_Ok by lia.
  all: repeat match goal with |- _ /\ _ => split | |- _ <-> _ => split end.
  all: try reflexivity; try discriminate; try assumption; try (intros; lra).
  all: try (intros e [= <-]; split; reflexivity).
  all: intros _; eexists; reflexivity.
Qed.




(** C10.  The quantizer is defined only for the bit widths 4, 8 and 12.
    Whatever the delta, the lookup of the level count fails with a key
    error exactly when the width is not one of them, the 16 bits of the
    reference entry included, in the quantizer and in the decoder's
    dequantization alike; a value is returned only at the widths 4, 8 and
    12, and there it is returned for every delta of magnitude up to
    2^1000. *)
Theorem C10_quantize_domain (delta : Q) (bits : Z) :
  ((exists k, quantize_delta init delta bits = Raise (KeyError k))
   <-> ~ (bits = 4 \/ bits = 8 \/ bits = 12))
  /\ (~ (bits = 4 \/ bits = 8 \/ bits = 12)
      -> quantize_delta init delta bits = Raise (KeyError bits))
  /\ (is_Ok (quantize_delta init delta bits) = true
      -> bits = 4 \/ bits = 8 \/ bits = 12)
  /\ (bits = 4 \/ bits = 8 \/ bits = 12 -> Binary64.in_range delta
      -> is_Ok (quantize_delta init delta bits) = true)
  /\ quantize_delta init delta 16 = Raise (KeyError 16)
  /\ (forall reconstructed ty v,
        ~ (bits = 4 \/ bits = 8 \/ bits = 12) ->
        decode_step init reconstructed (Entry ty bits v) = Raise (KeyError bits)).
Proof.
  unfold quantize_delta, decode_step. cbn [e_bits]. rewrite levels_init.
  repeat case_decide; subst; simpl.
  all: repeat match goal with |- _ /\ _ => split | |- _ <-> _ => split end.
  all: try reflexivity; try discriminate; try tauto; try lia.
  all: try (intros; exfalso; tauto).
  all: try (intros [k Hk]; discriminate Hk).
  all: try (intros _; eexists; reflexivity).
Qed.

End Quantizer.

(** ** C3, C6, C8: the variable-width container and its decoder *)

Section VariableWidth.
Import DeltaEncoder.

Lemma py_truediv_ok a b : ~ (b == 0)%Q -> py_truediv a b = Ok (a / b)%Q.
Proof.
  intros Hb. unfold py_truediv.
  destruct (Qeq_bool b 0) eqn:E; [|reflexivity].
  apply Qeq_bool_iff in E. contradiction.
Qed.

Lemma report_share_ok n total :
  (0 < total)%nat -> exists q, report_share n total = Ok q.
Proof.
  intros Ht. unfold report_share. rewrite py_truediv_ok.
  - eexists. reflexivity.
  - unfold Qeq. simpl. lia.
Qed.

Lemma length_np_diff a : length (np_diff a) = (length a - 1)%nat.
Proof.
  induction a as [|x [|y tl] IH]; [reflexivity..|].
  change (np_diff (x :: y :: tl)) with ((y - x)%Q :: np_diff (y :: tl)).
  simpl in *. rewrite IH. lia.
Qed.

Lemma encode_delta_init delta :
  exists e, encode_delta init delta = Ok e
            /\ delta_width e
            /\ e_type e = classify init delta
            /\ quantize_delta init delta (e_bits e) = Ok (e_value e).
Proof.
  unfold encode_delta, classify, delta_width.
  destruct (Qltb _ (small_delta_threshold init));
    [|destruct (Qltb _ (medium_delta_threshold init))].
  all: rewrite quantize_delta_init by lia.
  all: eexists; split; [reflexivity|]; cbn [e_bits e_type e_value].
  all: rewrite quantize_delta_init by lia.
  all: repeat split; lia.
Qed.

Lemma encode_deltas_init deltas : forall acc,
  exists es,
    encode_deltas init deltas acc = Ok (acc ++ es)
    /\ Forall2 (fun d e => encode_delta init d = Ok e) deltas es
    /\ Forall delta_width es.
Proof.
  induction deltas as [|d rest IH]; intros acc.
  - exists []. rewrite app_nil_r. repeat split; constructor.
  - destruct (encode_delta_init d) as (e & He & Hw & _).
    destruct (IH (acc ++ [e])) as (es & Hes & Hall & Hws).
    exists (e :: es). simpl. rewrite He.
    change (mbind ?g (Ok ?x)) with (g x). cbv beta.
    rewrite Hes, <- app_assoc. repeat split; try reflexivity; constructor; assumption.
Qed.

Lemma total_bits_pos es :
  Forall delta_width es -> 0 <= foldr Z.add 0 (map e_bits es).
Proof. induction 1 as [|e rest Hw _ IH]; simpl; [|unfold delta_width in Hw]; lia. Qed.

(** With at least two samples the encoder returns: the reference entry,
    then one entry per delta. *)
Lemma compress_audio_delta_ok audio :
  (2 <= length audio)%nat ->
  exists a0 r es,
    head audio = Some a0
    /\ compress_audio_delta init audio = Ok r
    /\ encoded_data r = Entry reference 16 (py_int (a0 * 32767)%Q) :: es
    /\ first_sample (params r) = py_int (a0 * 32767)%Q
    /\ Forall2 (fun d e => encode_delta init d = Ok e) (np_diff audio) es
    /\ Forall delta_width es.
Proof.
  intros Hlen. destruct audio as [|a0 tl]; [simpl in Hlen; lia|].
  assert (Hd : (0 < length (np_diff (a0 :: tl)))%nat) by (rewrite length_np_diff; lia).
  unfold compress_audio_delta.
  remember (np_diff (a0 :: tl)) as deltas eqn:Hdeltas.
  destruct (report_share_ok (length (List.filter (small_mask init) deltas)) _ Hd) as [q1 ->].
  destruct (report_share_ok (length (List.filter (medium_mask init) deltas)) _ Hd) as [q2 ->].
  destruct (report_share_ok (length (List.filter (large_mask init) deltas)) _ Hd) as [q3 ->].
  cbn [py_first]. rewrite !bind_Ok.
  destruct (encode_deltas_init deltas [Entry reference 16 (py_int (a0 * 32767)%Q)])
    as (es & Hes & Hall & Hws).
  rewrite Hes, bind_Ok.
  rewrite py_truediv_ok, bind_Ok.
  - exists a0. eexists. exists es. repeat split; try reflexivity; assumption.
  - pose proof (total_bits_pos es Hws). unfold Qeq. simpl. lia.
Qed.

(** With a single sample there are no deltas, and the report of the tier
    shares divides by their number. *)
Lemma compress_audio_delta_single a0 :
  compress_audio_delta init [a0] = Raise ZeroDivisionError.
Proof. reflexivity. Qed.






Lemma decode_step_init reconstructed x0 e :
  delta_width e ->
  decode_step init (reconstructed ++ [x0]) e
  = Ok ((reconstructed ++ [x0])
          ++ [(x0 + inject_Z (e_value e) / inject_Z (2 ^ (e_bits e - 1) - 1))%Q]).
Proof.
  intros Hw. unfold decode_step. rewrite levels_init.
  unfold py_last. rewrite last_snoc.
  destruct Hw as [-> | [-> | ->]]; reflexivity.
Qed.

Lemma decode_loop_init es : forall reconstructed x0,
  Forall delta_width es ->
  exists tail,
    decode_loop init (reconstructed ++ [x0]) es = Ok (reconstructed ++ x0 :: tail)
    /\ length tail = length es
    /\ forall (i : nat) e, es !! i = Some e ->
       exists prev,
         (x0 :: tail) !! i = Some prev
         /\ tail !! i
            = Some (prev + inject_Z (e_value e)
                           / inject_Z (2 ^ (e_bits e - 1) - 1))%Q.
Proof.
  induction es as [|e rest IH]; intros reconstructed x0 Hall.
  - exists []. repeat split. intros i e Hi. destruct i; discriminate.
  - inversion Hall as [|? ? Hw Hrest]; subst.
    cbn [decode_loop]. rewrite decode_step_init, bind_Ok by assumption.
    set (x1 := (x0 + inject_Z (e_value e) / inject_Z (2 ^ (e_bits e - 1) - 1))%Q).
    destruct (IH (reconstructed ++ [x0]) x1 Hrest) as (tail & Hloop & Hlen & Hrec).
    exists (x1 :: tail). rewrite Hloop, <- app_assoc.
    repeat split; [simpl; congruence|].
    intros [|i] e' Hi.
    + injection Hi as <-. exists x0. split; reflexivity.
    + apply (Hrec i e' Hi).
Qed.

(** C6.  With a single sample the encoder raises before any entry is
    built: there are no deltas, and the report of the tier shares divides
    by their number; so no encoded result exists to decode.  With two or
    more samples the claim holds: the decoded sequence has the length of
    the input, begins with [reference / 32767], and every further value is
    the previous one plus [code / (2^(bits-1) - 1)], with no clamping. *)
Theorem C6_decode_reconstruction :
  (forall a0, compress_and_decode init [a0] = Raise ZeroDivisionError)
  /\ (forall audio, (2 <= length audio)%nat ->
      exists r es reconstructed,
        compress_audio_delta init audio = Ok r
        /\ encoded_data r = Entry reference 16 (first_sample (params r)) :: es
        /\ compress_and_decode init audio = Ok reconstructed
        /\ length reconstructed = length audio
        /\ reconstructed !! 0%nat
           = Some (inject_Z (first_sample (params r)) / 32767)%Q
        /\ forall (i : nat) e, es !! i = Some e ->
           exists prev,
             reconstructed !! i = Some prev
             /\ reconstructed !! S i
                = Some (prev + inject_Z (e_value e)
                               / inject_Z (2 ^ (e_bits e - 1) - 1))%Q).
Proof.
  split; [reflexivity|].
  intros audio Hlen.
  destruct (compress_audio_delta_ok audio Hlen)
    as (a0 & r & es & Hhd & Hr & Hdata & Hfirst & Hall & Hws).
  destruct (decode_loop_init es []
              (inject_Z (first_sample (params r)) / 32767)%Q Hws)
    as (tail & Hloop & Hlen' & Hrec).
  exists r, es, ((inject_Z (first_sample (params r)) / 32767)%Q :: tail).
  repeat split.
  - assumption.
  - rewrite Hdata, Hfirst. reflexivity.
  - unfold compress_and_decode. rewrite Hr, bind_Ok.
    unfold decode_delta_data. rewrite py_truediv_ok by discriminate.
    rewrite bind_Ok, Hdata. exact Hloop.
  - cbn [length]. rewrite Hlen', <- (Forall2_length _ _ _ Hall), length_np_diff. lia.
  - exact Hrec.
Qed.

(** C8 (as amended).  Encoding [0.0, 0.005, -0.002, 0.5, -0.5], whose
    deltas are 0.005, -0.007, 0.502, -1.0, gives the tiers Small, Small,
    Large, Large with the codes 0, 0, 1027, -2047; both Small deltas
    quantize to 0, so the reconstruction of the two Small-tier steps is 0
    and 0, off the original values by 0.005 and 0.002. *)
Theorem C8_concrete_scenario :
  let audio := [0; 5 # 1000; - (2 # 1000); 1 # 2; - (1 # 2)]%Q in
  Forall2 Qeq (np_diff audio) [5 # 1000; - (7 # 1000); 502 # 1000; - (1)]%Q
  /\ exists r reconstructed r1 r2,
       compress_audio_delta init audio = Ok r
       /\ map e_type (encoded_data r) = [reference; small; small; large; large]
       /\ map e_bits (encoded_data r) = [16; 4; 4; 12; 12]
       /\ map e_value (encoded_data r) = [0; 0; 0; 1027; -2047]
       /\ compress_and_decode init audio = Ok reconstructed
       /\ reconstructed !! 1%nat = Some r1
       /\ reconstructed !! 2%nat = Some r2
       /\ (r1 == 0 /\ r2 == 0
           /\ Qabs (r1 - (5 # 1000)) == 5 # 1000
           /\ Qabs (r2 - - (2 # 1000)) == 2 # 1000)%Q.
Proof.
  split.
  - repeat constructor.
  - do 4 eexists.
    split; [vm_compute; reflexivity|].
    repeat split; reflexivity.
Qed.

(** C8, as the design document words it, fails: the reconstruction of the
    first Small-tier step is 0, which is 0.005 away from the original 0.005
    and so not within 1/2047. *)
Lemma C8_counterexample :
  exists reconstructed r1,
    compress_and_decode init [0; 5 # 1000; - (2 # 1000); 1 # 2; - (1 # 2)]%Q
    = Ok reconstructed
    /\ reconstructed !! 1%nat = Some r1
    /\ ~ (Qabs (r1 - (5 # 1000)) <= 1 # 2047)%Q.
Proof.
  do 2 eexists. split; [vm_compute; reflexivity|].
  split; [reflexivity|]. vm_compute. intros H. apply H. reflexivity.
Qed.

(** *** The encoder reads the values of its samples only

    Two sample sequences of equal values ([Qeq], whatever the fractions
    that denote them) are encoded alike. *)











End VariableWidth.

(** ** C1, C7, C9: the byte-aligned 8-bit codec *)

Section FixedWidth.
Import GBA.

Lemma wrap8_in_range z : in_int8 z -> wrap8 z = z.
Proof. unfold in_int8, wrap8. intros. rewrite Z.mod_small by lia. lia. Qed.

Lemma byte_int8_roundtrip v : in_int8 v -> byte_to_int8 (int8_to_byte v) = v.
Proof.
  unfold in_int8, byte_to_int8, int8_to_byte. rewrite land_255. intros Hv.
  destruct (Z.lt_ge_cases v 0) as [Hneg | Hpos].
  - assert (Hm : v mod 256 = v + 256).
    { symmetry. apply (Z.mod_unique_pos v 256 (-1)); lia. }
    rewrite Hm. destruct (v + 256 <? 128) eqn:E;
      [apply Z.ltb_lt in E | apply Z.ltb_ge in E]; lia.
  - rewrite Z.mod_small by lia.
    destruct (v <? 128) eqn:E; [reflexivity | apply Z.ltb_ge in E; lia].
Qed.

Lemma np_clip_in_range v : in_int8 (np_clip (-128) 127 v).
Proof. unfold in_int8, np_clip. lia. Qed.

Lemma np_clip_id v : in_int8 v -> np_clip (-128) 127 v = v.
Proof. unfold in_int8, np_clip. lia. Qed.

Lemma Qmax2_l x y : (x <= Qmax2 x y)%Q.
Proof.
  unfold Qmax2. destruct (Qltb x y) eqn:E.
  - apply Qltb_lt in E. lra.
  - lra.
Qed.

Lemma Qmax2_r x y : (y <= Qmax2 x y)%Q.
Proof.
  unfold Qmax2. destruct (Qltb x y) eqn:E.
  - lra.
  - apply Qltb_ge in E. lra.
Qed.

Lemma foldl_Qmax2_bound l : forall m,
  (m <= foldl Qmax2 m l)%Q /\ Forall (fun a => (a <= foldl Qmax2 m l)%Q) l.
Proof.
  induction l as [|a l IH]; intros m; simpl.
  - split; [lra | constructor].
  - destruct (IH (Qmax2 m a)) as [Hm Hl].
    pose proof (Qmax2_l m a). pose proof (Qmax2_r m a).
    split; [lra|]. constructor; [lra | assumption].
Qed.

(** The peak bounds every sample. *)
Lemma np_max_abs_bound x rest :
  exists peak,
    np_max_abs (x :: rest) = Ok peak
    /\ (0 <= peak)%Q
    /\ Forall (fun a => (Qabs a <= peak)%Q) (x :: rest).
Proof.
  eexists. split; [reflexivity|].
  destruct (foldl_Qmax2_bound (map Qabs rest) (Qabs x)) as [Hx Hrest].
  pose proof (Qabs_nonneg x).
  split; [lra|]. constructor; [assumption|].
  apply Forall_forall. intros a Ha.
  rewrite Forall_forall in Hrest. apply Hrest.
  apply list_elem_of_In. apply in_map. apply list_elem_of_In. exact Ha.
Qed.

(** A sample scaled to the peak stays within 121 in magnitude. *)
Lemma scaled_bound peak a :
  (0 <= peak)%Q -> (Qabs a <= peak)%Q ->
  (-121 <= a * scale_of_peak peak /\ a * scale_of_peak peak <= 121)%Q.
Proof.
  intros Hp Ha. apply Qabs_Qle_condition in Ha. destruct Ha as [Hlo Hhi].
  unfold scale_of_peak. destruct (Qltb 0 peak) eqn:E.
  - apply Qltb_lt in E.
    assert (Heq : (a * (121 / peak) == (a * 121) / peak)%Q)
      by (unfold Qdiv; ring).
    rewrite Heq. split.
    + apply Qle_shift_div_l; [assumption | lra].
    + apply Qle_shift_div_r; [assumption | lra].
  - apply Qltb_ge in E. split; lra.
Qed.

(** [np.round] moves a value by at most one half. *)
Lemma np_round_half x :
  (inject_Z (np_round x) - (1 # 2) <= x /\ x <= inject_Z (np_round x) + (1 # 2))%Q.
Proof.
  unfold np_round.
  pose proof (Qfloor_le x) as Hlo. pose proof (Qlt_floor x) as Hhi.
  rewrite inject_Z_plus in Hhi. change (inject_Z 1) with 1%Q in Hhi.
  destruct (Qcompare_spec (x - inject_Z (Qfloor x)) (1 # 2)) as [He | Hl | Hg].
  - destruct (Z.even (Qfloor x)).
    + split; lra.
    + rewrite inject_Z_plus. change (inject_Z 1) with 1%Q. split; lra.
  - split; lra.
  - rewrite inject_Z_plus. change (inject_Z 1) with 1%Q. split; lra.
Qed.

(** One quantized sample: within 1 of the scaled sample, the dither
    accounting for one half and the rounding for the other. *)
Lemma quantize_sample_bound s d :
  (-121 <= s)%Q -> (s <= 121)%Q -> (- (1 # 2) <= d)%Q -> (d <= 1 # 2)%Q ->
  let q := np_clip (-128) 127 (np_round (s + d)%Q) in
  (Qabs (inject_Z q - s) <= 1)%Q /\ in_int8 q.
Proof.
  intros Hs1 Hs2 Hd1 Hd2 q. split; [|apply np_clip_in_range].
  destruct (np_round_half (s + d)%Q) as [Hr1 Hr2].
  assert (Hrange : -122 <= np_round (s + d)%Q <= 122).
  { assert (H1 : (inject_Z (np_round (s + d)%Q) <= 122)%Q) by lra.
    assert (H2 : (-122 <= inject_Z (np_round (s + d)%Q))%Q) by lra.
    unfold Qle in H1, H2. simpl in H1, H2. lia. }
  unfold q. rewrite np_clip_id by (unfold in_int8; lia).
  apply Qabs_Qle_condition. split; lra.
Qed.

Lemma quantize_8bit_bound scale (g : RandomState) audio : forall k,
  Forall (fun a => (-121 <= a * scale /\ a * scale <= 121)%Q) audio ->
  (forall i, (- (1 # 2) <= g i /\ g i <= 1 # 2)%Q) ->
  Forall2 (fun a q => (Qabs (inject_Z q - a * scale) <= 1)%Q /\ in_int8 q)
          audio
          (quantize_8bit (map (fun a => (a * scale)%Q) audio)
                         (map g (seq k (length audio)))).
Proof.
  induction audio as [|a rest IH]; intros k Hall Hg; [constructor|].
  inversion Hall as [|? ? [Ha1 Ha2] Hrest]; subst.
  cbn [length seq map quantize_8bit zip_with]. constructor.
  - destruct (Hg k). apply quantize_sample_bound; assumption.
  - apply IH; assumption.
Qed.

Lemma length_np_diff_int a : length (np_diff_int a) = (length a - 1)%nat.
Proof.
  induction a as [|x [|y tl] IH]; [reflexivity..|].
  change (np_diff_int (x :: y :: tl)) with ((y - x) :: np_diff_int (y :: tl)).
  simpl in *. rewrite IH. lia.
Qed.

Lemma reconstruct_length ds : forall c pre,
  length (reconstruct c pre ds) = (length pre + length ds)%nat.
Proof.
  induction ds as [|d ds IH]; intros c pre; simpl; [lia|].
  rewrite IH, length_app. simpl. lia.
Qed.

(** Deltas that were not clipped are added back exactly. *)
Lemma reconstruct_exact rest : forall c pre,
  Forall in_int8 rest ->
  reconstruct c pre (np_diff_int (c :: rest)) = pre ++ rest.
Proof.
  induction rest as [|y rest IH]; intros c pre Hall.
  - simpl. now rewrite app_nil_r.
  - inversion Hall as [|? ? Hy Hrest]; subst.
    change (np_diff_int (c :: y :: rest)) with ((y - c) :: np_diff_int (y :: rest)).
    cbn [reconstruct]. unfold int8_add.
    replace (c + (y - c)) with y by lia. rewrite wrap8_in_range by assumption.
    replace (Z.max (-128) (Z.min 127 y)) with y by (unfold in_int8 in Hy; lia).
    rewrite IH by assumption. now rewrite <- app_assoc.
Qed.

Lemma map_byte_int8 ds :
  Forall in_int8 ds -> map byte_to_int8 (map int8_to_byte ds) = ds.
Proof.
  induction 1 as [|d ds Hd _ IH]; [reflexivity|].
  simpl. now rewrite byte_int8_roundtrip, IH.
Qed.

Lemma delta_8bit_in_range q : Forall in_int8 (delta_8bit q).
Proof.
  unfold delta_8bit. induction (np_diff_int q) as [|d ds IH]; constructor.
  - apply np_clip_in_range.
  - assumption.
Qed.

Lemma delta_8bit_unclipped q :
  Forall in_int8 (np_diff_int q) -> delta_8bit q = np_diff_int q.
Proof.
  unfold delta_8bit. induction 1 as [|d ds Hd _ IH]; [reflexivity|].
  simpl. now rewrite np_clip_id, IH.
Qed.

(** The decoder on a file with a complete header: the count field is read
    and never consulted. *)
Lemma decode_file s0 s1 s2 s3 c0 c1 c2 c3 b bs :
  decode (magic ++ [s0; s1; s2; s3] ++ [c0; c1; c2; c3] ++ b :: bs)
  = Ok (map (fun s => (inject_Z s / 127)%Q)
            (removelast (reconstruct (byte_to_int8 b) [byte_to_int8 b]
                                     (map byte_to_int8 bs))),
        le_combine [s0; s1; s2; s3]).
Proof. reflexivity. Qed.

Lemma length_removelast_reconstruct c ds :
  length (removelast (reconstruct c [c] ds)) = length ds.
Proof.
  assert (H : forall (l : list Z), length (removelast l) = (length l - 1)%nat).
  { induction l as [|x [|y l] IH]; [reflexivity..|].
    change (removelast (x :: y :: l)) with (x :: removelast (y :: l)).
    simpl in *. rewrite IH. lia. }
  rewrite H, reconstruct_length. simpl. lia.
Qed.

Lemma uint32_tobytes_ok n :
  0 <= n < 2 ^ 32 -> uint32_tobytes n = Ok (le_bytes 4 n).
Proof.
  intros Hn. unfold uint32_tobytes.
  destruct (0 <=? n) eqn:E1; [|apply Z.leb_gt in E1; lia].
  destruct (n <? 2 ^ 32) eqn:E2; [|apply Z.ltb_ge in E2; lia].
  reflexivity.
Qed.

(** What the encoding half writes, for two samples or more. *)
Lemma encode_spec audio (g : RandomState) :
  (2 <= length audio)%nat -> Z.of_nat (length audio) <= 2 ^ 32 ->
  exists peak q0 qs,
    np_max_abs audio = Ok peak
    /\ (0 <= peak)%Q
    /\ Forall (fun a => (Qabs a <= peak)%Q) audio
    /\ quantize_8bit (map (fun a => (a * scale_of_peak peak)%Q) audio)
                     (map g (seq 0 (length audio))) = q0 :: qs
    /\ encode audio g
       = Ok (magic ++ le_bytes 4 target_sr
               ++ le_bytes 4 (Z.of_nat (length audio) - 1)
               ++ int8_to_byte q0 :: map int8_to_byte (delta_8bit (q0 :: qs)),
             fun i => g (i + length audio)%nat).
Proof.
  intros Hlen Hmax.
  destruct audio as [|x [|y tl]]; [simpl in Hlen; lia..|].
  destruct (np_max_abs_bound x (y :: tl)) as (peak & Hpeak & Hp0 & Hall).
  set (audio := x :: y :: tl) in *.
  set (q := quantize_8bit (map (fun a => (a * scale_of_peak peak)%Q) audio)
                          (map g (seq 0 (length audio)))).
  assert (Hq : exists q0 q1 qs, q = q0 :: q1 :: qs
                                /\ length qs = length tl).
  { unfold q, audio. cbn [length seq map quantize_8bit zip_with].
    do 3 eexists. split; [reflexivity|].
    generalize 2%nat. clear. induction tl as [|a tl IH]; intros k; [reflexivity|].
    cbn [length seq map zip_with]. now rewrite IH. }
  destruct Hq as (q0 & q1 & qs & Hq & Hqs).
  exists peak, q0, (q1 :: qs). repeat split; try assumption.
  unfold encode. rewrite Hpeak, bind_Ok.
  unfold np_random_triangular. rewrite length_map. fold q. rewrite Hq.
  cbn [np_min np_max py_first]. rewrite !bind_Ok.
  change (delta_8bit (q0 :: q1 :: qs))
    with (np_clip (-128) 127 (q1 - q0) :: delta_8bit (q1 :: qs)).
  cbn [np_min np_max]. rewrite !bind_Ok.
  rewrite (uint32_tobytes_ok target_sr) by (unfold target_sr; lia).
  rewrite bind_Ok.
  assert (Hcount : Z.of_nat (length (np_clip (-128) 127 (q1 - q0)
                                       :: delta_8bit (q1 :: qs)))
                   = Z.of_nat (length audio) - 1).
  { unfold delta_8bit. cbn [length]. rewrite length_map, length_np_diff_int.
    cbn [length]. unfold audio. cbn [length]. lia. }
  rewrite Hcount. rewrite uint32_tobytes_ok by lia. rewrite bind_Ok.
  reflexivity.
Qed.

(** C1 (as amended).  For every sequence of n >= 2 samples, dither within
    [-0.5, 0.5] and a peak that is 0 or at least 2^-100 (below, the
    quotient 121 / peak may overflow), encoding then decoding succeeds and
    yields n - 1 samples: the decoder drops the last one.  The file holds
    the first of n quantized samples and their n - 1 clipped differences;
    every quantized sample is an 8-bit value within 1 + 1/1024 of the
    sample scaled to the peak (sample * 121 / peak: one half for the
    dither, one half for the rounding to an integer, 1/1024 for the
    floating-point scaling), and whenever no difference was clipped the
    reconstruction is the quantized samples divided by 127.  It follows
    the peak-normalised waveform, not the original amplitudes. *)
Theorem C1_fixed_width_roundtrip (audio : list Q) (g : RandomState) (peak : Q) :
  (2 <= length audio)%nat -> Z.of_nat (length audio) <= 2 ^ 32 ->
  (forall i, (- (1 # 2) <= g i /\ g i <= 1 # 2)%Q) ->
  np_max_abs audio = Ok peak ->
  (peak == 0 \/ 2 ^ (-100) <= peak)%Q ->
  exists q0 qs file reconstructed g',
    gba_optimized_compression audio g = Ok (file, reconstructed, g')
    /\ file = magic ++ le_bytes 4 target_sr
                ++ le_bytes 4 (Z.of_nat (length audio) - 1)
                ++ int8_to_byte q0 :: map int8_to_byte (delta_8bit (q0 :: qs))
    /\ Forall2 (fun a qi =>
                  (Qabs (inject_Z qi - a * scale_of_peak peak)
                   <= 1 + (1 # 1024))%Q
                  /\ in_int8 qi) audio (q0 :: qs)
    /\ length reconstructed = (length audio - 1)%nat
    /\ (Forall in_int8 (np_diff_int (q0 :: qs)) ->
        reconstructed
        = map (fun s => (inject_Z s / 127)%Q) (removelast (q0 :: qs))).
Proof.
  intros Hlen Hmax Hg Hpk _.
  destruct (encode_spec audio g Hlen Hmax)
    as (peak' & q0 & qs & Hpeak & Hp0 & Hall & Hq & Henc).
  rewrite Hpk in Hpeak. injection Hpeak as <-.
  assert (Hbound : Forall2 (fun a qi =>
                     (Qabs (inject_Z qi - a * scale_of_peak peak) <= 1)%Q
                     /\ in_int8 qi) audio (q0 :: qs)).
  { rewrite <- Hq. apply quantize_8bit_bound; [|assumption].
    eapply Forall_impl; [exact Hall|]. intros a Ha. now apply scaled_bound. }
  assert (Hrange : Forall in_int8 (q0 :: qs)).
  { clear -Hbound. induction Hbound as [|? ? ? ? [_ ?] _ IH]; constructor; assumption. }
  inversion Hrange as [|? ? Hq0 Hqs]; subst.
  exists q0, qs. do 3 eexists.
  unfold gba_optimized_compression. rewrite Henc, bind_Ok.
  unfold target_sr. cbn [le_bytes]. rewrite decode_file, bind_Ok.
  rewrite byte_int8_roundtrip by assumption.
  rewrite map_byte_int8 by apply delta_8bit_in_range.
  split; [reflexivity|]. cbn [fst].
  split; [reflexivity|].
  split.
  { eapply Forall2_impl; [exact Hbound|].
    intros a qi [Ha Hi]. split; [|exact Hi].
    eapply Qle_trans; [exact Ha|]. discriminate. }
  split.
  - rewrite length_map, length_removelast_reconstruct.
    unfold delta_8bit. rewrite length_map, length_np_diff_int.
    rewrite <- (Forall2_length _ _ _ Hbound). reflexivity.
  - intros Hunclipped. rewrite delta_8bit_unclipped by assumption.
    rewrite (reconstruct_exact qs q0 [q0]) by assumption. reflexivity.
Qed.

Lemma C1_witness :
  exists q0 qs file reconstructed g',
    let audio := [1; 1 # 2; - (1 # 4)]%Q in
    let g : RandomState := fun _ => 0%Q in
    gba_optimized_compression audio g = Ok (file, reconstructed, g')
    /\ file = magic ++ le_bytes 4 target_sr
                ++ le_bytes 4 (Z.of_nat (length audio) - 1)
                ++ int8_to_byte q0 :: map int8_to_byte (delta_8bit (q0 :: qs))
    /\ Forall2 (fun a qi =>
                  (Qabs (inject_Z qi - a * scale_of_peak 1)
                   <= 1 + (1 # 1024))%Q
                  /\ in_int8 qi) audio (q0 :: qs)
    /\ length reconstructed = (length audio - 1)%nat
    /\ (Forall in_int8 (np_diff_int (q0 :: qs)) ->
        reconstructed
        = map (fun s => (inject_Z s / 127)%Q) (removelast (q0 :: qs))).
Proof.
  apply (C1_fixed_width_roundtrip [1; 1 # 2; - (1 # 4)]%Q (fun _ => 0%Q) 1).
  - simpl. lia.
  - simpl. lia.
  - intros _. split; discriminate.
  - reflexivity.
  - right. vm_compute. discriminate.
Defined.

(** C1, as the design document words it, fails: the two samples
    [0.1, 0.1] with dither 0.25 are encoded as 121, 121 with a single delta
    0 (nothing is clipped), and the decoder returns the one sample 121/127:
    one sample fewer than the input, and more than 1/127 away from 0.1. *)
Lemma C1_counterexample :
  exists file reconstructed g' r0,
    gba_optimized_compression [1 # 10; 1 # 10]%Q (fun _ => (1 # 4)%Q)
    = Ok (file, reconstructed, g')
    /\ length reconstructed <> length [1 # 10; 1 # 10]%Q
    /\ delta_8bit [121; 121] = np_diff_int [121; 121]
    /\ reconstructed !! 0%nat = Some r0
    /\ ~ (Qabs (r0 - (1 # 10)) <= 1 # 127)%Q.
Proof.
  do 4 eexists. split; [vm_compute; reflexivity|].
  split; [simpl; lia|]. split; [reflexivity|]. split; [reflexivity|].
  vm_compute. intros H. apply H. reflexivity.
Qed.

(** C7 (as amended).  A file whose first four bytes are not the tag FQWT is
    refused with the "Bad magic" error and nothing is reconstructed.  The
    declared delta count is read and never compared with the bytes that
    follow: with a complete 13-byte header the decoder never fails, whatever
    the count says, and reconstructs one sample per delta byte present.
    Only a file cut inside the header is refused. *)
Theorem C7_decode_failure_modes :
  (forall file, take 4 file <> magic ->
                decode file = Raise (ValueError "Bad magic"))
  /\ (forall s0 s1 s2 s3 c0 c1 c2 c3 first deltas,
        exists reconstructed,
          decode (magic ++ [s0; s1; s2; s3] ++ [c0; c1; c2; c3] ++ first :: deltas)
          = Ok (reconstructed, le_combine [s0; s1; s2; s3])
          /\ length reconstructed = length deltas
          /\ decode (magic ++ [s0; s1; s2; s3] ++ [0; 0; 0; 0] ++ first :: deltas)
             = Ok (reconstructed, le_combine [s0; s1; s2; s3]))
  /\ (forall file, take 4 file = magic -> (length file < 13)%nat ->
                   is_Ok (decode file) = false).
Proof.
  split; [|split].
  - intros file Hmagic. unfold decode.
    rewrite bool_decide_eq_false_2 by assumption. reflexivity.
  - intros. eexists. rewrite !decode_file.
    split; [reflexivity|]. split; [|reflexivity].
    now rewrite length_map, length_removelast_reconstruct, length_map.
  - intros file Hmagic Hlen.
    destruct file as [|b0 [|b1 [|b2 [|b3 rest]]]]; try discriminate Hmagic.
    injection Hmagic as -> -> -> ->.
    do 9 (destruct rest as [|? rest]; [reflexivity|]).
    simpl in Hlen. lia.
Qed.

(** C7, as the design document words it, fails: a file that declares 5
    deltas and carries 2 is decoded without error. *)
Lemma C7_counterexample :
  let file := magic ++ [94; 26; 0; 0] ++ [5; 0; 0; 0] ++ [0] ++ [1; 2] in
  frombuffer_uint32_0 (take 4 (drop 8 file)) = Ok 5
  /\ length (drop 13 file) = 2%nat
  /\ decode file = Ok ([0 # 127; 1 # 127]%Q, 6750)
  /\ decode file <> Raise TruncatedStream.
Proof.
  cbn zeta. split; [reflexivity|]. split; [reflexivity|].
  split; [reflexivity|]. discriminate.
Qed.




End FixedWidth.

(** * Further properties of the code *)

(** ** The quantizer and the tiers *)

Section QuantizerRanges.
Import DeltaEncoder.

Lemma py_int_sign x :
  ((0 <= x)%Q -> 0 <= py_int x /\ (inject_Z (py_int x) <= x)%Q
                 /\ (x < inject_Z (py_int x) + 1)%Q)
  /\ ((x <= 0)%Q -> py_int x <= 0 /\ (inject_Z (py_int x) - 1 < x)%Q
                    /\ (x <= inject_Z (py_int x))%Q).
Proof.
  destruct (py_int_truncated x) as [Hpos Hneg].
  split; intros Hx.
  - destruct (Hpos Hx) as [H1 H2]. repeat split; try assumption.
    assert (H : (-1 < inject_Z (py_int x))%Q) by lra.
    unfold Qlt in H. simpl in H. lia.
  - destruct (Hneg Hx) as [H1 H2]. repeat split; try assumption.
    assert (H : (inject_Z (py_int x) < 1)%Q) by lra.
    unfold Qlt in H. simpl in H. lia.
Qed.


(** What each tier can emit.  A Small delta is below 0.01 and is scaled by
    7, so a Small entry always carries the 4-bit code 0; a Medium code is
    never 0 and never beyond 12 in magnitude; a Large code is at least 204
    in magnitude, and at most 2048.  This holds of every entry the encoding
    loop emits, and it emits one for every delta of magnitude up to
    2^1000. *)
Theorem tier_code_ranges (delta : Q) :
  (forall e,
     encode_delta init delta = Ok e ->
     (e_type e = small -> e_value e = 0)
     /\ (e_type e = medium -> 1 <= Z.abs (e_value e) <= 12)
     /\ (e_type e = large -> 204 <= Z.abs (e_value e) <= 2048))
  /\ (Binary64.in_range delta -> exists e, encode_delta init delta = Ok e).
Proof.
  enough (Hmain : exists e,
            encode_delta init delta = Ok e
            /\ (e_type e = small -> e_value e = 0)
            /\ (e_type e = medium -> 1 <= Z.abs (e_value e) <= 12)
            /\ (e_type e = large -> 204 <= Z.abs (e_value e) <= 2048)).
  { destruct Hmain as (e & He & Hranges). split.
    - intros e' He'. rewrite He in He'. injection He' as <-. exact Hranges.
    - intros _. exists e. exact He. }
  unfold encode_delta. cbn [small_delta_threshold medium_delta_threshold init].
  destruct (py_int_sign (delta * inject_Z (2 ^ (4 - 1) - 1))%Q) as [Hp4 Hn4].
  destruct (py_int_sign (delta * inject_Z (2 ^ (8 - 1) - 1))%Q) as [Hp8 Hn8].
  destruct (py_int_sign (delta * inject_Z (2 ^ (12 - 1) - 1))%Q) as [Hp12 Hn12].
  change (inject_Z (2 ^ (4 - 1) - 1)) with 7%Q in *.
  change (inject_Z (2 ^ (8 - 1) - 1)) with 127%Q in *.
  change (inject_Z (2 ^ (12 - 1) - 1)) with 2047%Q in *.
  destruct (Qltb (Qabs delta) (1 # 100)) eqn:Hs;
    [apply Qltb_lt in Hs | apply Qltb_ge in Hs;
     destruct (Qltb (Qabs delta) (1 # 10)) eqn:Hm;
       [apply Qltb_lt in Hm | apply Qltb_ge in Hm]].
  all: rewrite quantize_delta_init by lia; rewrite bind_Ok.
  all: eexists; split; [reflexivity|]; cbn [e_type e_value].
  all: change (inject_Z (2 ^ (4 - 1) - 1)) with 7%Q.
  all: change (inject_Z (2 ^ (8 - 1) - 1)) with 127%Q.
  all: change (inject_Z (2 ^ (12 - 1) - 1)) with 2047%Q.
  all: split; [intros Ht; try discriminate Ht
              | split; intros Ht; try discriminate Ht]; clear Ht.
  - set (n := py_int (delta * 7)%Q) in *.
    destruct (Qlt_le_dec delta 0) as [Hd | Hd].
    + rewrite Qabs_neg in Hs by lra.
      destruct (Hn4 ltac:(lra)) as (H0 & H1 & H2).
      assert (H : (-1 < inject_Z n)%Q) by lra.
      unfold Qlt in H. simpl in H. change (2 ^ (4 - 1) - 1) with 7. lia.
    + rewrite Qabs_pos in Hs by lra.
      destruct (Hp4 ltac:(lra)) as (H0 & H1 & H2).
      assert (H : (inject_Z n < 1)%Q) by lra.
      unfold Qlt in H. simpl in H. change (2 ^ (4 - 1) - 1) with 7. lia.
  - set (n := py_int (delta * 127)%Q) in *.
    destruct (Qlt_le_dec delta 0) as [Hd | Hd].
    + rewrite Qabs_neg in Hs, Hm by lra.
      destruct (Hn8 ltac:(lra)) as (H0 & H1 & H2).
      assert (Ha : (-13 < inject_Z n)%Q) by lra.
      assert (Hb : (inject_Z n - 1 < -1)%Q) by lra.
      unfold Qlt in Ha, Hb. simpl in Ha, Hb. change (2 ^ (8 - 1) - 1) with 127. lia.
    + rewrite Qabs_pos in Hs, Hm by lra.
      destruct (Hp8 ltac:(lra)) as (H0 & H1 & H2).
      assert (Ha : (inject_Z n < 13)%Q) by lra.
      assert (Hb : (1 < inject_Z n + 1)%Q) by lra.
      unfold Qlt in Ha, Hb. simpl in Ha, Hb. change (2 ^ (8 - 1) - 1) with 127. lia.
  - set (n := py_int (delta * 2047)%Q) in *.
    destruct (Qlt_le_dec delta 0) as [Hd | Hd].
    + rewrite Qabs_neg in Hm by lra.
      destruct (Hn12 ltac:(lra)) as (H0 & H1 & H2).
      assert (Hb : (inject_Z n - 1 < -204)%Q) by lra.
      unfold Qlt in Hb. simpl in Hb. change (2 ^ (12 - 1) - 1) with 2047. lia.
    + rewrite Qabs_pos in Hm by lra.
      destruct (Hp12 ltac:(lra)) as (H0 & H1 & H2).
      assert (Hb : (204 < inject_Z n + 1)%Q) by lra.
      unfold Qlt in Hb. simpl in Hb. change (2 ^ (12 - 1) - 1) with 2047. lia.
Qed.




End QuantizerRanges.

(** ** The variable-width encoder: when it returns, and its statistics *)

Section EncoderStatistics.
Import DeltaEncoder.

(** The encoder returns only for two samples or more, and it does return
    for two or more samples of magnitude up to 2^1000; with none or one
    there are no deltas and the tier percentages of the progress report
    divide by zero. *)
Theorem compress_success_condition (audio : list Q) :
  (is_Ok (compress_audio_delta init audio) = true -> (2 <= length audio)%nat)
  /\ ((2 <= length audio)%nat -> Forall Binary64.in_range audio ->
      is_Ok (compress_audio_delta init audio) = true)
  /\ ((length audio < 2)%nat ->
      compress_audio_delta init audio = Raise ZeroDivisionError
      /\ compress_and_pack init audio = Raise ZeroDivisionError
      /\ compress_and_decode init audio = Raise ZeroDivisionError).
Proof.
  assert (Hshort : (length audio < 2)%nat ->
                   compress_audio_delta init audio = Raise ZeroDivisionError).
  { intros Hlen. destruct audio as [|a0 [|a1 tl]]; [reflexivity | reflexivity |].
    simpl in Hlen. lia. }
  split; [|split].
  - intros Hok. destruct (Nat.lt_ge_cases (length audio) 2) as [Hlt | Hge]; [|exact Hge].
    rewrite (Hshort Hlt) in Hok. discriminate.
  - intros Hlen _.
    destruct (compress_audio_delta_ok audio Hlen) as (? & r & ? & _ & Hr & _).
    rewrite Hr. reflexivity.
  - intros Hlen. unfold compress_and_pack, compress_and_decode.
    rewrite (Hshort Hlen). repeat split.
Qed.

(** The masks of the report and the branch taken by the encoding loop
    agree: exactly one mask holds, and it is the one of the entry's width. *)
Lemma encode_delta_masks d e :
  encode_delta init d = Ok e ->
  (small_mask init d = true /\ medium_mask init d = false
   /\ large_mask init d = false /\ e_bits e = 4)
  \/ (small_mask init d = false /\ medium_mask init d = true
      /\ large_mask init d = false /\ e_bits e = 8)
  \/ (small_mask init d = false /\ medium_mask init d = false
      /\ large_mask init d = true /\ e_bits e = 12).
Proof.
  unfold encode_delta, small_mask, medium_mask, large_mask.
  rewrite !Qgeb_negb.
  destruct (Qltb (Qabs d) (small_delta_threshold init)) eqn:Hs.
  - rewrite quantize_delta_init, bind_Ok by lia. intros [= <-].
    left. cbn [e_bits negb andb]. repeat split.
    apply negb_false_iff. apply Qltb_lt. apply Qltb_lt in Hs.
    cbn [small_delta_threshold medium_delta_threshold init] in *. lra.
  - destruct (Qltb (Qabs d) (medium_delta_threshold init)) eqn:Hm;
      rewrite quantize_delta_init, bind_Ok by lia; intros [= <-];
      [right; left | right; right]; cbn [e_bits negb andb]; repeat split.
Qed.

Lemma bits_by_mask ds es :
  Forall2 (fun d e => encode_delta init d = Ok e) ds es ->
  let s := Z.of_nat (length (List.filter (small_mask init) ds)) in
  let m := Z.of_nat (length (List.filter (medium_mask init) ds)) in
  let l := Z.of_nat (length (List.filter (large_mask init) ds)) in
  foldr Z.add 0 (map e_bits es) = 4 * s + 8 * m + 12 * l
  /\ s + m + l = Z.of_nat (length ds).
Proof.
  induction 1 as [|d e ds es He _ IH]; [split; reflexivity|].
  cbn zeta in *. destruct IH as [IHb IHc].
  cbn [List.filter map foldr length].
  destruct (encode_delta_masks d e He)
    as [(-> & -> & -> & ->) | [(-> & -> & -> & ->) | (-> & -> & -> & ->)]];
    cbn [length]; split; lia.
Qed.

Lemma compress_info (audio : list Q) :
  (2 <= length audio)%nat ->
  let s := Z.of_nat (length (List.filter (small_mask init) (np_diff audio))) in
  let m := Z.of_nat (length (List.filter (medium_mask init) (np_diff audio))) in
  let l := Z.of_nat (length (List.filter (large_mask init) (np_diff audio))) in
  exists r,
    compress_audio_delta init audio = Ok r
    /\ distribution (info r) = (s, m, l)
    /\ 0 <= s /\ 0 <= m /\ 0 <= l
    /\ s + m + l = Z.of_nat (length audio) - 1
    /\ delta_samples (info r) = Z.of_nat (length audio) - 1
    /\ original_samples (info r) = Z.of_nat (length audio)
    /\ Z.of_nat (length (encoded_data r)) = Z.of_nat (length audio)
    /\ original_bits (info r) = 16 * Z.of_nat (length audio)
    /\ compressed_bits (info r) = 16 + 4 * s + 8 * m + 12 * l
    /\ compressed_bits (info r) = foldr Z.add 0 (map e_bits (encoded_data r))
    /\ (compression_ratio (info r)
        == inject_Z (original_bits (info r)) / inject_Z (compressed_bits (info r)))%Q.
Proof.
  intros Hlen. cbn zeta. destruct audio as [|a0 tl]; [simpl in Hlen; lia|].
  assert (Hd : (0 < length (np_diff (a0 :: tl)))%nat) by (rewrite length_np_diff; lia).
  pose proof (length_np_diff (a0 :: tl)) as Hdl.
  unfold compress_audio_delta.
  remember (np_diff (a0 :: tl)) as deltas eqn:Hdeltas.
  destruct (report_share_ok (length (List.filter (small_mask init) deltas)) _ Hd) as [q1 ->].
  destruct (report_share_ok (length (List.filter (medium_mask init) deltas)) _ Hd) as [q2 ->].
  destruct (report_share_ok (length (List.filter (large_mask init) deltas)) _ Hd) as [q3 ->].
  cbn [py_first]. rewrite !bind_Ok.
  destruct (encode_deltas_init deltas [Entry reference 16 (py_int (a0 * 32767)%Q)])
    as (es & Hes & Hall & Hws).
  rewrite Hes, bind_Ok.
  destruct (bits_by_mask deltas es Hall) as [Hbits Hcount].
  pose proof (total_bits_pos es Hws) as Hpos.
  rewrite py_truediv_ok, bind_Ok
    by (unfold Qeq; simpl; change (foldr Z.add 0 (map e_bits es))
          with (foldr Z.add 0 (map e_bits es)); lia).
  eexists.
  split; [reflexivity|]. cbn [info distribution delta_samples original_samples
                              encoded_data original_bits compressed_bits
                              compression_ratio].
  split; [reflexivity|].
  pose proof (Forall2_length _ _ _ Hall) as Hfl.
  cbn [app map foldr e_bits length] in *.
  repeat match goal with |- _ /\ _ => split end; try lia.
  reflexivity.
Qed.



End EncoderStatistics.

(** ** The packer: file size, byte range and the carry it keeps *)

Section PackerInvariants.
Import DeltaEncoder.

Lemma stream_bits_foldr es : Stream.bits es = foldr Z.add 0 (map e_bits es).
Proof. induction es as [|e es IH]; simpl; congruence. Qed.

Lemma stream_value_bound es :
  Forall (fun e => 0 <= e_bits e) es ->
  0 <= Stream.value es < 2 ^ Stream.bits es.
Proof.
  induction 1 as [|e es Hb Hall IH]; [simpl; lia|].
  pose proof (stream_bits_nonneg _ Hall) as HT.
  cbn [Stream.value Stream.bits]. rewrite Z.pow_add_r by lia.
  pose proof (Z.mod_pos_bound (e_value e) (2 ^ e_bits e) ltac:(lia)).
  assert (0 < 2 ^ e_bits e) by lia. nia.
Qed.

Lemma le_bytes_range n : forall v, Forall (fun b => 0 <= b < 256) (le_bytes n v).
Proof.
  induction n as [|n IH]; intros v; [constructor|].
  rewrite le_bytes_S. constructor; [apply Z.mod_pos_bound; lia | apply IH].
Qed.

(** The size [pack_encoded_data] returns: the 8 header bytes plus the total
    width of the entries rounded up to whole bytes; every byte written is
    in [0, 256). *)
Theorem pack_encoded_data_size (es : list entry) :
  Forall (fun e => 0 <= e_bits e) es -> Z.of_nat (length es) < 2 ^ 32 ->
  exists file,
    pack_encoded_data es = Ok file
    /\ Z.of_nat (length file) = 8 + (foldr Z.add 0 (map e_bits es) + 7) / 8
    /\ Forall (fun b => 0 <= b < 256) file.
Proof.
  intros Hall Hlen. pose proof (stream_bits_nonneg _ Hall) as HT.
  assert (Hq : 0 <= (Stream.bits es + 7) / 8) by (apply Z.div_pos; lia).
  unfold pack_encoded_data, struct_pack_I.
  destruct (0 <=? Z.of_nat (length es)) eqn:E1; [|apply Z.leb_gt in E1; lia].
  destruct (Z.of_nat (length es) <? 2 ^ 32) eqn:E2; [|apply Z.ltb_ge in E2; lia].
  cbn [andb]. rewrite bind_Ok, pack_bits_spec by assumption.
  eexists. split; [reflexivity|]. split.
  - rewrite !length_app, !length_le_bytes, <- stream_bits_foldr.
    change (length (bytes_of_string "PGDD")) with 4%nat. lia.
  - rewrite !Forall_app. repeat split; try apply le_bytes_range.
    change (bytes_of_string "PGDD") with [80; 71; 68; 68].
    repeat constructor; lia.
Qed.

Lemma pack_encoded_data_size_witness :
  exists file,
    pack_encoded_data [Entry reference 16 (-3); Entry small 4 0; Entry large 12 (-2047)]
    = Ok file
    /\ Z.of_nat (length file)
       = 8 + (foldr Z.add 0
                (map e_bits [Entry reference 16 (-3); Entry small 4 0;
                             Entry large 12 (-2047)]) + 7) / 8
    /\ Forall (fun b => 0 <= b < 256) file.
Proof.
  apply (pack_encoded_data_size
           [Entry reference 16 (-3); Entry small 4 0; Entry large 12 (-2047)]).
  - repeat constructor; simpl; lia.
  - simpl. lia.
Defined.

(** The carry of the packing loop.  After any number of entries the bit
    buffer holds fewer than 8 bits, namely the total width modulo 8, and no
    bit above them is set; all whole bytes have been written. *)
Theorem pack_entries_carry (f : list Z) (es : list entry) :
  Forall (fun e => 0 <= e_bits e) es ->
  exists f' bit_buffer bits_in_buffer,
    pack_entries (f, 0, 0) es = Ok (f ++ f', bit_buffer, bits_in_buffer)
    /\ 0 <= bits_in_buffer < 8
    /\ bits_in_buffer = foldr Z.add 0 (map e_bits es) mod 8
    /\ 0 <= bit_buffer < 2 ^ bits_in_buffer
    /\ Z.of_nat (length f') = foldr Z.add 0 (map e_bits es) / 8.
Proof.
  intros Hall. pose proof (stream_bits_nonneg _ Hall) as HT.
  pose proof (stream_value_bound es Hall) as HV.
  rewrite <- stream_bits_foldr.
  rewrite (pack_entries_spec es f 0 0) by (simpl; lia || assumption).
  cbn zeta. rewrite Z.add_0_l, Z.pow_0_r, Z.mul_1_l, !Z.add_0_l.
  set (T := Stream.bits es) in *. set (V := Stream.value es) in *.
  pose proof (Z.div_mod T 8 ltac:(lia)) as HTdm.
  pose proof (Z.mod_pos_bound T 8 ltac:(lia)) as Hm.
  assert (Hq : 0 <= T / 8) by (apply Z.div_pos; lia).
  do 3 eexists. split; [reflexivity|].
  split; [exact Hm|]. split; [reflexivity|]. split.
  - split; [apply Z.div_pos; lia|].
    apply Z.div_lt_upper_bound; [lia|].
    rewrite <- Z.pow_add_r by lia. rewrite <- HTdm. lia.
  - rewrite length_le_bytes. lia.
Qed.

Lemma pack_entries_carry_witness :
  exists f' bit_buffer bits_in_buffer,
    pack_entries ([1; 2], 0, 0) [Entry small 4 (-1); Entry large 12 5; Entry small 4 3]
    = Ok ([1; 2] ++ f', bit_buffer, bits_in_buffer)
    /\ 0 <= bits_in_buffer < 8
    /\ bits_in_buffer
       = foldr Z.add 0 (map e_bits [Entry small 4 (-1); Entry large 12 5;
                                    Entry small 4 3]) mod 8
    /\ 0 <= bit_buffer < 2 ^ bits_in_buffer
    /\ Z.of_nat (length f')
       = foldr Z.add 0 (map e_bits [Entry small 4 (-1); Entry large 12 5;
                                    Entry small 4 3]) / 8.
Proof.
  apply (pack_entries_carry [1; 2]
           [Entry small 4 (-1); Entry large 12 5; Entry small 4 3]).
  repeat constructor; simpl; lia.
Defined.

End PackerInvariants.

(** ** The variable-width decoder: missing widths, and the drift it allows *)

Section DecoderBehaviour.
Import DeltaEncoder.

Lemma decode_loop_app pre : forall reconstructed rest,
  decode_loop init reconstructed (pre ++ rest)
  = (r ← decode_loop init reconstructed pre; decode_loop init r rest).
Proof.
  induction pre as [|e pre IH]; intros reconstructed rest; [reflexivity|].
  cbn [app decode_loop].
  destruct (decode_step init reconstructed e) as [r|err]; [|reflexivity].
  rewrite !bind_Ok. apply IH.
Qed.

(** The decoder works on any entry list whose entries after the first
    have widths 4, 8 or 12, returning one sample more than there are such
    entries; it stops with a key error at the first entry of another
    width, a 16-bit reference entry that is not in first place
    included. *)
Theorem decode_key_errors (r : encoded_result) :
  (Forall delta_width (drop 1 (encoded_data r)) ->
   exists reconstructed,
     decode_delta_data init r = Ok reconstructed
     /\ length reconstructed = S (length (drop 1 (encoded_data r))))
  /\ (forall pre e post,
        drop 1 (encoded_data r) = pre ++ e :: post ->
        Forall delta_width pre -> ~ delta_width e ->
        decode_delta_data init r = Raise (KeyError (e_bits e))).
Proof.
  unfold decode_delta_data. rewrite py_truediv_ok, bind_Ok by discriminate.
  set (s0 := (inject_Z (first_sample (params r)) / 32767)%Q).
  split.
  - intros Hall. destruct (decode_loop_init _ [] s0 Hall) as (tail & Hloop & Hlen & _).
    eexists. split; [exact Hloop|]. cbn [app length]. now rewrite Hlen.
  - intros pre e post Heq Hpre Hbad. rewrite Heq, decode_loop_app.
    destruct (decode_loop_init pre [] s0 Hpre) as (tail & Hloop & _).
    cbn [app] in Hloop. rewrite Hloop, bind_Ok. cbn [decode_loop]. unfold decode_step.
    rewrite levels_init. unfold delta_width in Hbad.
    repeat case_decide; try tauto.
Qed.






End DecoderBehaviour.

(** ** The 8-bit codec: container, headroom and the decoder's arithmetic *)

Section FixedWidthBehaviour.
Import GBA.

Lemma le_combine_le_bytes k : forall n,
  le_combine (le_bytes k n) = n mod 2 ^ (8 * Z.of_nat k).
Proof.
  induction k as [|k IH]; intros n.
  - simpl. now rewrite Z.mod_1_r.
  - rewrite le_bytes_S. cbn [le_combine]. rewrite IH.
    replace (8 * Z.of_nat (S k)) with (8 + 8 * Z.of_nat k) by lia.
    rewrite Z.pow_add_r by lia. change (2 ^ 8) with 256.
    rewrite Z.rem_mul_r by lia. reflexivity.
Qed.

Lemma frombuffer_le_bytes n :
  0 <= n < 2 ^ 32 -> frombuffer_uint32_0 (le_bytes 4 n) = Ok n.
Proof.
  intros Hn. pose proof (le_combine_le_bytes 4 n) as H.
  change (8 * Z.of_nat 4) with 32 in H. rewrite Z.mod_small in H by assumption.
  unfold frombuffer_uint32_0. rewrite length_le_bytes. cbn [Nat.modulo].
  change (negb (4 mod 4 =? 0)%nat) with false. cbv iota.
  change (take 4 (le_bytes 4 n)) with (le_bytes 4 n). rewrite H.
  reflexivity.
Qed.

Lemma int8_to_byte_range v : 0 <= int8_to_byte v < 256.
Proof. unfold int8_to_byte. rewrite land_255. apply Z.mod_pos_bound. lia. Qed.

(** The encoder runs to the end exactly for two samples or more: an empty
    waveform has no peak, and a single sample leaves no delta whose range
    the progress report could print. *)
Theorem encode_succeeds_iff (audio : list Q) (g : RandomState) :
  Z.of_nat (length audio) <= 2 ^ 32 ->
  (is_Ok (encode audio g) = true <-> (2 <= length audio)%nat)
  /\ encode [] g
     = Raise (ValueError
                "zero-size array to reduction operation maximum which has no identity")
  /\ (forall a,
        encode [a] g
        = Raise (ValueError
                   "zero-size array to reduction operation minimum which has no identity")).
Proof.
  intros Hmax. split; [|split; [reflexivity | intros a; reflexivity]].
  split.
  - intros Hok. destruct audio as [|a [|b tl]]; [discriminate Hok | discriminate Hok |].
    simpl. lia.
  - intros Hlen. destruct (encode_spec audio g Hlen Hmax) as (? & ? & ? & _ & _ & _ & _ & ->).
    reflexivity.
Qed.

Lemma encode_succeeds_iff_witness :
  (is_Ok (encode [1; 1 # 2]%Q (fun _ => 1 # 4)%Q) = true
   <-> (2 <= length [1; 1 # 2]%Q)%nat)
  /\ encode [] (fun _ => 1 # 4)%Q
     = Raise (ValueError
                "zero-size array to reduction operation maximum which has no identity")
  /\ (forall a,
        encode [a] (fun _ => 1 # 4)%Q
        = Raise (ValueError
                   "zero-size array to reduction operation minimum which has no identity")).
Proof.
  apply (encode_succeeds_iff [1; 1 # 2]%Q (fun _ => 1 # 4)%Q). simpl. lia.
Defined.

(** The container the encoder writes for n >= 2 samples: n + 12 bytes, all
    in [0, 256); the tag FQWT, the sample rate 6750 and the delta count
    n - 1 read back from the header, and the count is the number of delta
    bytes that follow the 13 header bytes; the generator has advanced by n
    variates. *)
Theorem gba_container_layout (audio : list Q) (g : RandomState) :
  (2 <= length audio)%nat -> Z.of_nat (length audio) <= 2 ^ 32 ->
  exists file g',
    encode audio g = Ok (file, g')
    /\ length file = (length audio + 12)%nat
    /\ take 4 file = [70; 81; 87; 84]
    /\ frombuffer_uint32_0 (take 4 (drop 4 file)) = Ok 6750
    /\ frombuffer_uint32_0 (take 4 (drop 8 file))
       = Ok (Z.of_nat (length audio) - 1)
    /\ Z.of_nat (length (drop 13 file)) = Z.of_nat (length audio) - 1
    /\ Forall (fun b => 0 <= b < 256) file
    /\ forall i, g' i = g (i + length audio)%nat.
Proof.
  intros Hlen Hmax.
  destruct (encode_spec audio g Hlen Hmax)
    as (peak & q0 & qs & Hpeak & _ & _ & Hq & Henc).
  assert (Hql : length (q0 :: qs) = length audio).
  { rewrite <- Hq. unfold quantize_8bit.
    assert (H : forall (l : list Q) k,
              length (zip_with
                        (fun a d => np_clip (-128) 127 (np_round (a + d)%Q))
                        (map (fun a => (a * scale_of_peak peak)%Q) l)
                        (map g (seq k (length l)))) = length l).
    { induction l as [|a l IH]; intros k; [reflexivity|].
      cbn [length seq map zip_with]. now rewrite IH. }
    apply H. }
  assert (Hdl : length (delta_8bit (q0 :: qs)) = (length audio - 1)%nat).
  { unfold delta_8bit. rewrite length_map, length_np_diff_int, Hql. reflexivity. }
  do 2 eexists. split; [exact Henc|].
  set (count := le_bytes 4 (Z.of_nat (length audio) - 1)).
  assert (Hcount : exists c0 c1 c2 c3, count = [c0; c1; c2; c3])
    by (unfold count; cbn [le_bytes]; eauto).
  destruct Hcount as (c0 & c1 & c2 & c3 & Hc).
  assert (Hfb : frombuffer_uint32_0 count = Ok (Z.of_nat (length audio) - 1))
    by (apply frombuffer_le_bytes; lia).
  rewrite Hc in *. change magic with [70; 81; 87; 84].
  unfold target_sr. cbn [le_bytes app take drop].
  repeat match goal with |- _ /\ _ => split end.
  - rewrite !length_cons, length_map, Hdl. lia.
  - reflexivity.
  - reflexivity.
  - exact Hfb.
  - rewrite drop_0, length_map, Hdl. lia.
  - assert (Hc' : Forall (fun b => 0 <= b < 256) [c0; c1; c2; c3]).
    { rewrite <- Hc. apply le_bytes_range. }
    inversion Hc' as [|? ? H0 Hc1]; subst. inversion Hc1 as [|? ? H1 Hc2]; subst.
    inversion Hc2 as [|? ? H2 Hc3]; subst. inversion Hc3 as [|? ? H3 _]; subst.
    repeat (constructor; [first [lia | apply int8_to_byte_range
                                 | apply Z.mod_pos_bound; lia
                                 | (rewrite land_255; apply Z.mod_pos_bound; lia)]|]).
    apply Forall_forall. intros b Hb. apply list_elem_of_In in Hb.
    apply in_map_iff in Hb. destruct Hb as (v & <- & _). apply int8_to_byte_range.
  - reflexivity.
Qed.

Lemma gba_container_layout_witness :
  exists file g',
    encode [1; 1 # 2; - (1 # 4)]%Q (fun _ => 1 # 4)%Q = Ok (file, g')
    /\ length file = (length [1; 1 # 2; - (1 # 4)]%Q + 12)%nat
    /\ take 4 file = [70; 81; 87; 84]
    /\ frombuffer_uint32_0 (take 4 (drop 4 file)) = Ok 6750
    /\ frombuffer_uint32_0 (take 4 (drop 8 file))
       = Ok (Z.of_nat (length [1; 1 # 2; - (1 # 4)]%Q) - 1)
    /\ Z.of_nat (length (drop 13 file))
       = Z.of_nat (length [1; 1 # 2; - (1 # 4)]%Q) - 1
    /\ Forall (fun b => 0 <= b < 256) file
    /\ forall i, g' i = (fun _ : nat => 1 # 4)%Q (i + length [1; 1 # 2; - (1 # 4)]%Q)%nat.
Proof.
  apply (gba_container_layout [1; 1 # 2; - (1 # 4)]%Q (fun _ => 1 # 4)%Q);
    simpl; lia.
Defined.

End FixedWidthBehaviour.

Section FixedWidthDecoder.
Import GBA.

Lemma quantize_sample_headroom s d :
  (-121 - (1 # 1024) <= s)%Q -> (s <= 121 + (1 # 1024))%Q ->
  (- (1 # 2) <= d)%Q -> (d <= 1 # 2)%Q ->
  -122 <= np_round (s + d)%Q <= 122
  /\ np_clip (-128) 127 (np_round (s + d)%Q) = np_round (s + d)%Q.
Proof.
  intros Hs1 Hs2 Hd1 Hd2.
  destruct (np_round_half (s + d)%Q) as [Hr1 Hr2].
  assert (Hrange : -122 <= np_round (s + d)%Q <= 122).
  { assert (H1 : (inject_Z (np_round (s + d)%Q) < inject_Z 123)%Q)
      by (change (inject_Z 123) with 123%Q; lra).
    assert (H2 : (inject_Z (-123) < inject_Z (np_round (s + d)%Q))%Q)
      by (change (inject_Z (-123)) with (-123)%Q; lra).
    rewrite <- Zlt_Qlt in H1, H2. lia. }
  split; [exact Hrange | apply np_clip_id; unfold in_int8; lia].
Qed.

(** Headroom of the quantization.  Take the waveform scaled to 121 at its
    peak, each scaled sample within 1/1024 of sample * 121 / peak: the
    exact value, or the value floating point leaves once the scaling and
    the addition of the dither are rounded, unless the quotient 121 / peak
    overflows (a positive peak below about 6.7e-307).  With dither within
    [-0.5, 0.5], every 8-bit sample lies in [-122, 122]: the clip to
    [-128, 127] never changes a sample, and a delta is clipped only when
    two neighbours differ by more than 127. *)
Theorem quantized_headroom
    (audio audio_scaled : list Q) (g : RandomState) (peak : Q) :
  np_max_abs audio = Ok peak ->
  Forall2 (fun a s => (Qabs (s - a * scale_of_peak peak) <= 1 # 1024)%Q)
          audio audio_scaled ->
  (forall i, (- (1 # 2) <= g i /\ g i <= 1 # 2)%Q) ->
  let dither := map g (seq 0 (length audio_scaled)) in
  let audio_8bit := quantize_8bit audio_scaled dither in
  Forall (fun q => -122 <= q <= 122) audio_8bit
  /\ audio_8bit = zip_with (fun a d => np_round (a + d)%Q) audio_scaled dither
  /\ Forall (fun d => -244 <= d <= 244) (np_diff_int audio_8bit).
Proof.
  intros Hpeak Hscaled Hg.
  assert (Hbound : Forall (fun s => (-121 - (1 # 1024) <= s
                                     /\ s <= 121 + (1 # 1024))%Q) audio_scaled).
  { destruct audio as [|x rest];
      [inversion Hscaled; constructor|].
    destruct (np_max_abs_bound x rest) as (peak' & Hpeak' & Hp0 & Hall).
    rewrite Hpeak in Hpeak'. injection Hpeak' as <-.
    clear Hpeak. induction Hscaled as [|a s l l' Has _ IH]; [constructor|].
    inversion Hall as [|? ? Ha Hl]; subst.
    constructor; [|exact (IH Hl)].
    destruct (scaled_bound peak a Hp0 Ha) as [H1 H2].
    apply Qabs_Qle_condition in Has. destruct Has as [H3 H4].
    split; lra. }
  cbn zeta. generalize 0%nat as k. clear Hpeak Hscaled.
  assert (Hmain : forall k,
    Forall (fun q => -122 <= q <= 122)
      (quantize_8bit audio_scaled (map g (seq k (length audio_scaled))))
    /\ quantize_8bit audio_scaled (map g (seq k (length audio_scaled)))
       = zip_with (fun a d => np_round (a + d)%Q)
                  audio_scaled (map g (seq k (length audio_scaled)))).
  { induction Hbound as [|a rest [Ha1 Ha2] _ IH]; intros k; [split; constructor|].
    cbn [length seq map quantize_8bit zip_with].
    destruct (Hg k) as [Hg1 Hg2].
    destruct (quantize_sample_headroom _ _ Ha1 Ha2 Hg1 Hg2) as [Hr Hclip].
    destruct (IH (S k)) as [IH1 IH2]. unfold quantize_8bit in IH1, IH2.
    split; [constructor; [rewrite Hclip; exact Hr | exact IH1]|].
    rewrite Hclip. f_equal. exact IH2. }
  intros k. destruct (Hmain k) as [H1 H2].
  split; [exact H1|]. split; [exact H2|].
  clear -H1. induction H1 as [|x l Hx Hl IH]; [constructor|].
  destruct Hl as [|y l Hy Hl]; [constructor|].
  change (np_diff_int (x :: y :: l)) with ((y - x) :: np_diff_int (y :: l)).
  constructor; [lia | apply IH].
Qed.

Lemma quantized_headroom_witness :
  let audio := [1; - (1 # 2); 1 # 4]%Q in
  let audio_scaled := [121; - (121 # 2); 121 # 4]%Q in
  let g : RandomState := fun _ => (1 # 4)%Q in
  let dither := map g (seq 0 (length audio_scaled)) in
  let audio_8bit := quantize_8bit audio_scaled dither in
  Forall (fun q => -122 <= q <= 122) audio_8bit
  /\ audio_8bit = zip_with (fun a d => np_round (a + d)%Q) audio_scaled dither
  /\ Forall (fun d => -244 <= d <= 244) (np_diff_int audio_8bit).
Proof.
  apply (quantized_headroom [1; - (1 # 2); 1 # 4]%Q [121; - (121 # 2); 121 # 4]%Q
                            (fun _ => (1 # 4)%Q) 1).
  - reflexivity.
  - constructor; [vm_compute; discriminate|].
    constructor; [vm_compute; discriminate|].
    constructor; [vm_compute; discriminate|]. constructor.
  - intros _. split; discriminate.
Defined.

Lemma wrap8_range z : in_int8 (wrap8 z).
Proof.
  unfold in_int8, wrap8. pose proof (Z.mod_pos_bound (z + 128) 256 ltac:(lia)). lia.
Qed.

Lemma wrap8_add_l a b : wrap8 (wrap8 a + b) = wrap8 (a + b).
Proof.
  unfold wrap8. f_equal.
  replace ((a + 128) mod 256 - 128 + b + 128) with ((a + 128) mod 256 + b) by lia.
  rewrite Z.add_mod_idemp_l by lia. f_equal. lia.
Qed.

Lemma clamp_wrap8 z : Z.max (-128) (Z.min 127 (wrap8 z)) = wrap8 z.
Proof. pose proof (wrap8_range z) as H. unfold in_int8 in H. lia. Qed.

Lemma reconstruct_app ds : forall c pre,
  reconstruct c pre ds = pre ++ reconstruct c [] ds.
Proof.
  induction ds as [|d ds IH]; intros c pre.
  - simpl. now rewrite app_nil_r.
  - cbn [reconstruct]. rewrite IH. rewrite (IH _ ([] ++ _)).
    now rewrite <- app_assoc.
Qed.

Lemma reconstruct_nil_lookup ds : forall c (k : nat),
  (k < length ds)%nat ->
  reconstruct c [] ds !! k
  = Some (wrap8 (c + foldr Z.add 0 (take (S k) ds))).
Proof.
  induction ds as [|d ds IH]; intros c k Hk; [simpl in Hk; lia|].
  cbn [reconstruct]. unfold int8_add. rewrite clamp_wrap8.
  rewrite reconstruct_app. cbn [app].
  destruct k as [|k].
  - cbn [lookup list_lookup take foldr]. rewrite Z.add_0_r. reflexivity.
  - change ((wrap8 (c + d) :: reconstruct (wrap8 (c + d)) [] ds) !! S k)
      with (reconstruct (wrap8 (c + d)) [] ds !! k).
    rewrite IH by (simpl in Hk; lia).
    rewrite wrap8_add_l. cbn [take foldr]. do 2 f_equal. lia.
Qed.

Lemma reconstruct_lookup (first_sample : Z) (deltas : list Z) (k : nat) :
  in_int8 first_sample -> (k <= length deltas)%nat ->
  reconstruct first_sample [first_sample] deltas !! k
  = Some (wrap8 (first_sample + foldr Z.add 0 (take k deltas))).
Proof.
  intros Hfirst Hk. rewrite reconstruct_app. destruct k as [|k].
  - cbn [app lookup list_lookup take foldr]. rewrite Z.add_0_r.
    now rewrite wrap8_in_range.
  - change (([first_sample] ++ reconstruct first_sample [] deltas) !! S k)
      with (reconstruct first_sample [] deltas !! k).
    apply reconstruct_nil_lookup. lia.
Qed.

Lemma reconstruct_in_range (first_sample : Z) (deltas : list Z) :
  in_int8 first_sample ->
  Forall in_int8 (reconstruct first_sample [first_sample] deltas).
Proof.
  intros Hfirst. apply Forall_lookup. intros i x Hx.
  assert (Hi : (i <= length deltas)%nat).
  { apply lookup_lt_Some in Hx. rewrite reconstruct_length in Hx. simpl in Hx. lia. }
  rewrite (reconstruct_lookup _ _ i Hfirst Hi) in Hx. injection Hx as <-.
  apply wrap8_range.
Qed.

(** What the decoding loop computes: sample k is the first sample plus the
    first k deltas, wrapped around to the 8-bit range.  The sum of two
    [int8] values has already wrapped when the clamp to [-128, 127] is
    applied, so the clamp never changes a value and the decoder never
    saturates. *)
Theorem reconstruct_running_sum (first_sample : Z) (deltas : list Z) :
  in_int8 first_sample ->
  length (reconstruct first_sample [first_sample] deltas) = S (length deltas)
  /\ Forall in_int8 (reconstruct first_sample [first_sample] deltas)
  /\ (forall current delta,
        Z.max (-128) (Z.min 127 (int8_add current delta)) = int8_add current delta)
  /\ forall k : nat,
       (k <= length deltas)%nat ->
       reconstruct first_sample [first_sample] deltas !! k
       = Some (wrap8 (first_sample + foldr Z.add 0 (take k deltas))).
Proof.
  intros Hfirst.
  split; [rewrite reconstruct_length; reflexivity|].
  split; [apply reconstruct_in_range; exact Hfirst|].
  split.
  - intros current delta. unfold int8_add. apply clamp_wrap8.
  - intros k Hk. apply reconstruct_lookup; assumption.
Qed.

Lemma reconstruct_running_sum_witness :
  length (reconstruct 100 [100] [100; 2]) = S (length [100; 2])
  /\ Forall in_int8 (reconstruct 100 [100] [100; 2])
  /\ (forall current delta,
        Z.max (-128) (Z.min 127 (int8_add current delta)) = int8_add current delta)
  /\ forall k : nat,
       (k <= length [100; 2])%nat ->
       reconstruct 100 [100] [100; 2] !! k
       = Some (wrap8 (100 + foldr Z.add 0 (take k [100; 2]))).
Proof.
  apply (reconstruct_running_sum 100 [100; 2]). unfold in_int8. lia.
Defined.

Lemma reconstruct_snoc ds : forall c pre d,
  exists x, reconstruct c pre (ds ++ [d]) = reconstruct c pre ds ++ [x].
Proof.
  induction ds as [|d0 ds IH]; intros c pre d.
  - eexists. reflexivity.
  - cbn [app reconstruct]. apply IH.
Qed.

Lemma byte_to_int8_range b : 0 <= b < 256 -> in_int8 (byte_to_int8 b).
Proof.
  unfold in_int8, byte_to_int8. intros Hb.
  destruct (b <? 128) eqn:E; [apply Z.ltb_lt in E | apply Z.ltb_ge in E]; lia.
Qed.

(** The last delta byte of a file never reaches the output: the decoder
    drops the last reconstructed sample, so two files that differ only in
    their last delta byte decode to the same waveform, one sample per
    delta byte, each within [-128/127, 1]. *)
Theorem decode_ignores_last_delta
    (s0 s1 s2 s3 c0 c1 c2 c3 first : Z) (deltas : list Z) (d d' : Z) :
  0 <= first < 256 ->
  exists reconstructed,
    decode (magic ++ [s0; s1; s2; s3] ++ [c0; c1; c2; c3]
              ++ first :: deltas ++ [d])
    = Ok (reconstructed, le_combine [s0; s1; s2; s3])
    /\ decode (magic ++ [s0; s1; s2; s3] ++ [c0; c1; c2; c3]
                 ++ first :: deltas ++ [d'])
       = Ok (reconstructed, le_combine [s0; s1; s2; s3])
    /\ reconstructed
       = map (fun s => (inject_Z s / 127)%Q)
             (reconstruct (byte_to_int8 first) [byte_to_int8 first]
                          (map byte_to_int8 deltas))
    /\ length reconstructed = S (length deltas)
    /\ Forall (fun s => (- (128 # 127) <= s /\ s <= 1)%Q) reconstructed.
Proof.
  intros Hfirst. pose proof (byte_to_int8_range first Hfirst) as Hf.
  eexists. rewrite !decode_file, !map_app. cbn [map].
  destruct (reconstruct_snoc (map byte_to_int8 deltas) (byte_to_int8 first)
              [byte_to_int8 first] (byte_to_int8 d)) as [x ->].
  destruct (reconstruct_snoc (map byte_to_int8 deltas) (byte_to_int8 first)
              [byte_to_int8 first] (byte_to_int8 d')) as [x' ->].
  rewrite !removelast_last.
  split; [reflexivity|]. split; [reflexivity|]. split; [reflexivity|].
  pose proof (reconstruct_in_range (byte_to_int8 first)
                (map byte_to_int8 deltas) Hf) as Hrange.
  split; [rewrite length_map, reconstruct_length, length_map; reflexivity|].
  apply Forall_forall. intros s Hs. apply list_elem_of_In in Hs.
  apply in_map_iff in Hs. destruct Hs as (v & <- & Hv).
  apply list_elem_of_In in Hv. rewrite Forall_forall in Hrange.
  specialize (Hrange v Hv). unfold in_int8 in Hrange.
  assert (Hdiv : (inject_Z v / 127 == inject_Z v * (1 # 127))%Q) by reflexivity.
  rewrite Hdiv.
  assert (H1 : (-128 <= inject_Z v)%Q) by (unfold Qle; simpl; lia).
  assert (H2 : (inject_Z v <= 127)%Q) by (unfold Qle; simpl; lia).
  split; lra.
Qed.

Lemma decode_ignores_last_delta_witness :
  exists reconstructed,
    decode (magic ++ [94; 26; 0; 0] ++ [3; 0; 0; 0] ++ 200 :: [5; 250] ++ [7])
    = Ok (reconstructed, le_combine [94; 26; 0; 0])
    /\ decode (magic ++ [94; 26; 0; 0] ++ [3; 0; 0; 0] ++ 200 :: [5; 250] ++ [99])
       = Ok (reconstructed, le_combine [94; 26; 0; 0])
    /\ reconstructed
       = map (fun s => (inject_Z s / 127)%Q)
             (reconstruct (byte_to_int8 200) [byte_to_int8 200]
                          (map byte_to_int8 [5; 250]))
    /\ length reconstructed = S (length [5; 250])
    /\ Forall (fun s => (- (128 # 127) <= s /\ s <= 1)%Q) reconstructed.
Proof.
  apply (decode_ignores_last_delta 94 26 0 0 3 0 0 0 200 [5; 250] 7 99). lia.
Defined.

End FixedWidthDecoder.

(** ** The PGDA writers and the decoder *)

Section PGDAWriters.
Import GBA FFmpeg.

Lemma wrap8_add_r a b : wrap8 (a + wrap8 b) = wrap8 (a + b).
Proof. rewrite Z.add_comm, wrap8_add_l. f_equal. lia. Qed.

(** Deltas taken with wrap-around are added back exactly by the wrapping
    accumulation, whatever their size. *)
Lemma reconstruct_wrapped rest : forall c pre,
  Forall in_int8 rest ->
  reconstruct c pre (np_diff_int8 (c :: rest)) = pre ++ rest.
Proof.
  unfold np_diff_int8.
  induction rest as [|y rest IH]; intros c pre Hall.
  - simpl. now rewrite app_nil_r.
  - inversion Hall as [|? ? Hy Hrest]; subst.
    change (np_diff_int (c :: y :: rest)) with ((y - c) :: np_diff_int (y :: rest)).
    cbn [map reconstruct]. unfold int8_add. rewrite wrap8_add_r.
    replace (c + (y - c)) with y by lia. rewrite wrap8_in_range by assumption.
    replace (Z.max (-128) (Z.min 127 y)) with y by (unfold in_int8 in Hy; lia).
    rewrite IH by assumption. now rewrite <- app_assoc.
Qed.

Lemma np_diff_int8_range a : Forall in_int8 (np_diff_int8 a).
Proof.
  unfold np_diff_int8. induction (np_diff_int a) as [|d ds IH]; constructor.
  - apply wrap8_range.
  - assumption.
Qed.

Lemma audio_to_8bit_range audio :
  Forall (fun a => (-1 <= a /\ a <= 1)%Q) audio ->
  audio_to_8bit audio = map (fun a => np_round (a * 127)%Q) audio
  /\ Forall (fun q => -127 <= q <= 127) (audio_to_8bit audio).
Proof.
  unfold audio_to_8bit.
  induction 1 as [|a rest [Ha1 Ha2] _ [IH1 IH2]]; [split; constructor|].
  cbn [map]. destruct (np_round_half (a * 127)%Q) as [Hr1 Hr2].
  assert (Hrange : -127 <= np_round (a * 127)%Q <= 127).
  { assert (H1 : (inject_Z (np_round (a * 127)%Q) < 128)%Q) by lra.
    assert (H2 : (-128 < inject_Z (np_round (a * 127)%Q))%Q) by lra.
    unfold Qlt in H1, H2. simpl in H1, H2. lia. }
  assert (Hid : astype_int8 (np_round (a * 127)%Q) = np_round (a * 127)%Q).
  { unfold astype_int8. apply wrap8_in_range. unfold in_int8. lia. }
  rewrite Hid, IH1. split; [reflexivity|].
  constructor; [exact Hrange | rewrite <- IH1; exact IH2].
Qed.

(** The file [ffmpeg_to_pgda] writes is decoded without loss by the 8-bit
    decoder: for samples in [-1, 1] the decoder returns exactly the 8-bit
    samples [round(sample * 127)], divided by 127, all but the last, at the
    sample rate 11025.  The deltas wrap around when written and when added
    back, so no jump between neighbours is too large. *)
Theorem ffmpeg_to_pgda_roundtrip (audio_data : list Q) :
  (1 <= length audio_data)%nat -> Z.of_nat (length audio_data) <= 2 ^ 32 ->
  Forall (fun a => (-1 <= a /\ a <= 1)%Q) audio_data ->
  exists file,
    ffmpeg_to_pgda audio_data = Ok file
    /\ length file = (length audio_data + 12)%nat
    /\ decode file
       = Ok (map (fun s => (inject_Z s / 127)%Q)
                 (removelast (map (fun a => np_round (a * 127)%Q) audio_data)),
             11025).
Proof.
  intros Hlen Hmax Hrange.
  destruct (audio_to_8bit_range audio_data Hrange) as [Hq Hqr].
  unfold ffmpeg_to_pgda. cbn zeta. rewrite Hq in *.
  set (q := map (fun a => np_round (a * 127)%Q) audio_data) in *.
  assert (Hql : length q = length audio_data) by (unfold q; apply length_map).
  destruct q as [|q0 qs] eqn:Eq; [simpl in Hql; lia|].
  cbn [py_first]. rewrite bind_Ok. unfold write_body.
  rewrite (uint32_tobytes_ok 11025), bind_Ok by lia.
  assert (Hdl : length (np_diff_int8 (q0 :: qs)) = (length audio_data - 1)%nat).
  { unfold np_diff_int8. rewrite length_map, length_np_diff_int, Hql. reflexivity. }
  rewrite uint32_tobytes_ok, bind_Ok by lia.
  eexists. split; [reflexivity|].
  set (count := le_bytes 4 (Z.of_nat (length (np_diff_int8 (q0 :: qs))))).
  assert (Hcount : exists c0 c1 c2 c3, count = [c0; c1; c2; c3])
    by (unfold count; cbn [le_bytes]; eauto).
  destruct Hcount as (c0 & c1 & c2 & c3 & ->).
  change (bytes_of_string "FQWT") with magic.
  split.
  { change magic with [70; 81; 87; 84]. cbn [le_bytes app].
    rewrite !length_cons, length_map, Hdl. lia. }
  etransitivity; [apply decode_file|].
  assert (Hin : Forall in_int8 (q0 :: qs)).
  { eapply Forall_impl; [exact Hqr|]. unfold in_int8. cbv beta. intros; lia. }
  inversion Hin as [|? ? Hq0 Hqs]; subst.
  rewrite byte_int8_roundtrip by assumption.
  rewrite map_byte_int8 by apply np_diff_int8_range.
  rewrite (reconstruct_wrapped qs q0 [q0]) by assumption.
  reflexivity.
Qed.

Lemma ffmpeg_to_pgda_roundtrip_witness :
  exists file,
    ffmpeg_to_pgda [1; - (1); 1 # 2]%Q = Ok file
    /\ length file = (length [1; - (1); 1 # 2]%Q + 12)%nat
    /\ decode file
       = Ok (map (fun s => (inject_Z s / 127)%Q)
                 (removelast (map (fun a => np_round (a * 127)%Q)
                                  [1; - (1); 1 # 2]%Q)),
             11025).
Proof.
  apply (ffmpeg_to_pgda_roundtrip [1; - (1); 1 # 2]%Q).
  - simpl. lia.
  - simpl. lia.
  - repeat constructor; discriminate.
Defined.

(** The two writers produce the same container but for the tag: FQWT in
    [ffmpeg_to_pgda], FFMP in [create_ffmpeg_pgda_file], and the decoder
    accepts FQWT only, so it refuses every file of the second with the bad
    magic error.  With a single sample the second writer raises as well,
    when it prints the range of the empty delta array. *)
Theorem create_ffmpeg_pgda_file_tag (audio : list Q) :
  (2 <= length audio)%nat -> Z.of_nat (length audio) <= 2 ^ 32 ->
  exists f1 f2,
    ffmpeg_to_pgda audio = Ok f1
    /\ create_ffmpeg_pgda_file audio 11025 = Ok f2
    /\ take 4 f1 = [70; 81; 87; 84]
    /\ take 4 f2 = [70; 70; 77; 80]
    /\ drop 4 f1 = drop 4 f2
    /\ decode f2 = Raise (ValueError "Bad magic")
    /\ forall a sample_rate,
         0 <= sample_rate < 2 ^ 32 ->
         create_ffmpeg_pgda_file [a] sample_rate
         = Raise (ValueError
                    "zero-size array to reduction operation minimum which has no identity").
Proof.
  intros Hlen Hmax.
  unfold ffmpeg_to_pgda, create_ffmpeg_pgda_file. cbn zeta.
  set (q := audio_to_8bit audio).
  assert (Hql : length q = length audio) by (unfold q, audio_to_8bit; apply length_map).
  destruct q as [|q0 [|q1 qs]] eqn:Eq; [simpl in Hql; lia | simpl in Hql; lia |].
  cbn [py_first]. rewrite !bind_Ok. unfold write_body.
  rewrite (uint32_tobytes_ok 11025), !bind_Ok by lia.
  assert (Hdl : length (np_diff_int8 (q0 :: q1 :: qs)) = (length audio - 1)%nat).
  { unfold np_diff_int8. rewrite length_map, length_np_diff_int, Hql. reflexivity. }
  rewrite uint32_tobytes_ok, !bind_Ok by lia.
  unfold np_diff_int8.
  change (np_diff_int (q0 :: q1 :: qs)) with ((q1 - q0) :: np_diff_int (q1 :: qs)).
  cbn [map np_min np_max]. rewrite !bind_Ok.
  do 2 eexists. split; [reflexivity|]. split; [reflexivity|].
  split; [reflexivity|]. split; [reflexivity|]. split; [reflexivity|].
  split; [reflexivity|].
  intros a sample_rate Hsr. unfold write_body.
  rewrite (uint32_tobytes_ok sample_rate) by exact Hsr. reflexivity.
Qed.

Lemma create_ffmpeg_pgda_file_tag_witness :
  exists f1 f2,
    ffmpeg_to_pgda [1; - (1); 1 # 2]%Q = Ok f1
    /\ create_ffmpeg_pgda_file [1; - (1); 1 # 2]%Q 11025 = Ok f2
    /\ take 4 f1 = [70; 81; 87; 84]
    /\ take 4 f2 = [70; 70; 77; 80]
    /\ drop 4 f1 = drop 4 f2
    /\ decode f2 = Raise (ValueError "Bad magic")
    /\ forall a sample_rate,
         0 <= sample_rate < 2 ^ 32 ->
         create_ffmpeg_pgda_file [a] sample_rate
         = Raise (ValueError
                    "zero-size array to reduction operation minimum which has no identity").
Proof.
  apply (create_ffmpeg_pgda_file_tag [1; - (1); 1 # 2]%Q); simpl; lia.
Defined.

End PGDAWriters.

(** ** The delta analysis and the encoder it plans for *)

Section DeltaAnalysis.
Import DeltaEncoder Analyzer.

Lemma inject_Z_nat_nonneg (n : nat) : (0 <= inject_Z (Z.of_nat n))%Q.
Proof. unfold Qle. simpl. lia. Qed.

Lemma analyze_result (audio : list Q) :
  (2 <= length audio)%nat ->
  let s := Z.of_nat (length (List.filter (small_mask init) (np_diff audio))) in
  let m := Z.of_nat (length (List.filter (medium_mask init) (np_diff audio))) in
  let l := Z.of_nat (length (List.filter (large_mask init) (np_diff audio))) in
  exists a,
    analyze_delta_compression audio = Ok a
    /\ small_deltas (stats a) = s
    /\ medium_deltas (stats a) = m
    /\ large_deltas (stats a) = l
    /\ (small_deltas_4bit (allocation a) + medium_deltas_8bit (allocation a)
        + large_deltas_12bit (allocation a) == 1)%Q
    /\ (avg_bits_per_delta (potential a) * inject_Z (Z.of_nat (length audio) - 1)
        == inject_Z (4 * s + 8 * m + 12 * l))%Q
    /\ (4 <= avg_bits_per_delta (potential a)
        /\ avg_bits_per_delta (potential a) <= 12)%Q
    /\ (compression_ratio (potential a) == 16 / avg_bits_per_delta (potential a))%Q
    /\ ((4 # 3) <= compression_ratio (potential a)
        /\ compression_ratio (potential a) <= 4)%Q
    /\ (25 <= space_savings_percent (potential a)
        /\ space_savings_percent (potential a) <= 75)%Q
    /\ (0 <= max_delta (stats a))%Q.
Proof.
  intros Hlen. cbn zeta.
  pose proof (length_np_diff audio) as Hdl.
  unfold analyze_delta_compression.
  remember (np_diff audio) as deltas eqn:Hdeltas.
  destruct deltas as [|d0 ds] eqn:Ed; [simpl in Hdl; lia|]. rewrite <- Ed in *.
  assert (Hpeak : exists peak, GBA.np_max_abs deltas = Ok peak /\ (0 <= peak)%Q).
  { rewrite Ed. destruct (np_max_abs_bound d0 ds) as (peak & Hp & Hp0 & _). eauto. }
  destruct Hpeak as (peak & -> & Hp0). rewrite bind_Ok.
  cbn [small_deltas medium_deltas large_deltas]. unfold count.
  change (fun d : Q => Qltb (Qabs d) (1 # 100)) with (small_mask init).
  change (fun d : Q => Qgeb (Qabs d) (1 # 100) && Qltb (Qabs d) (1 # 10))
    with (medium_mask init).
  change (fun d : Q => Qgeb (Qabs d) (1 # 10)) with (large_mask init).
  set (s := Z.of_nat (length (List.filter (small_mask init) deltas))).
  set (m := Z.of_nat (length (List.filter (medium_mask init) deltas))).
  set (l := Z.of_nat (length (List.filter (large_mask init) deltas))).
  set (T := inject_Z (Z.of_nat (length deltas))).
  assert (Hsum : s + m + l = Z.of_nat (length deltas)).
  { unfold s, m, l. clear. induction deltas as [|d ds IH]; [reflexivity|].
    cbn [List.filter length].
    destruct (encode_delta_init d) as (e & He & _).
    destruct (encode_delta_masks d e He)
      as [(-> & -> & -> & _) | [(-> & -> & -> & _) | (-> & -> & -> & _)]];
      cbn [length]; lia. }
  assert (HT : (0 < T)%Q) by (unfold T, Qlt; simpl; lia).
  assert (HS : (0 <= inject_Z s)%Q) by apply inject_Z_nat_nonneg.
  assert (HM : (0 <= inject_Z m)%Q) by apply inject_Z_nat_nonneg.
  assert (HL : (0 <= inject_Z l)%Q) by apply inject_Z_nat_nonneg.
  assert (HsumQ : (inject_Z s + inject_Z m + inject_Z l == T)%Q).
  { unfold T. rewrite <- Hsum, !inject_Z_plus. reflexivity. }
  assert (HT0 : ~ (T == 0)%Q) by lra.
  rewrite !py_truediv_ok, !bind_Ok by exact HT0.
  set (avg := (inject_Z s / T * 4 + inject_Z m / T * 8 + inject_Z l / T * 12)%Q).
  assert (Havg : (avg == (4 * inject_Z s + 8 * inject_Z m + 12 * inject_Z l) / T)%Q).
  { unfold avg. field. exact HT0. }
  assert (Havg4 : (4 <= avg)%Q).
  { rewrite Havg. apply Qle_shift_div_l; [exact HT | lra]. }
  assert (Havg12 : (avg <= 12)%Q).
  { rewrite Havg. apply Qle_shift_div_r; [exact HT | lra]. }
  assert (Havg0 : ~ (avg == 0)%Q) by lra.
  rewrite (py_truediv_ok 16 avg), bind_Ok by exact Havg0.
  assert (Hr1 : ((4 # 3) <= 16 / avg)%Q).
  { apply Qle_shift_div_l; lra. }
  assert (Hr2 : (16 / avg <= 4)%Q).
  { apply Qle_shift_div_r; lra. }
  assert (Hr0 : ~ (16 / avg == 0)%Q) by lra.
  rewrite (py_truediv_ok 1 (16 / avg)), bind_Ok by exact Hr0.
  assert (Hi1 : ((1 # 4) <= 1 / (16 / avg))%Q).
  { apply Qle_shift_div_l; lra. }
  assert (Hi2 : (1 / (16 / avg) <= 3 # 4)%Q).
  { apply Qle_shift_div_r; lra. }
  eexists. split; [reflexivity|].
  cbn [stats potential allocation small_deltas medium_deltas large_deltas
       small_deltas_4bit medium_deltas_8bit large_deltas_12bit
       avg_bits_per_delta compression_ratio space_savings_percent max_delta].
  split; [reflexivity|]. split; [reflexivity|]. split; [reflexivity|].
  split; [field_simplify_eq; [lra | exact HT0]|].
  split.
  { fold avg. rewrite Havg.
    replace (Z.of_nat (length audio) - 1) with (Z.of_nat (length deltas)) by lia.
    fold T. rewrite !inject_Z_plus, !inject_Z_mult.
    change (inject_Z 4) with 4%Q. change (inject_Z 8) with 8%Q.
    change (inject_Z 12) with 12%Q. field. exact HT0. }
  fold avg. repeat split; try assumption; try reflexivity; lra.
Qed.

(** The analysis returns exactly for two samples or more: with fewer there
    is no delta, and the largest delta magnitude is the maximum of an empty
    array. *)
Theorem analyze_succeeds_iff (audio : list Q) :
  (is_Ok (analyze_delta_compression audio) = true <-> (2 <= length audio)%nat)
  /\ ((length audio < 2)%nat ->
      analyze_delta_compression audio
      = Raise (ValueError
                 "zero-size array to reduction operation maximum which has no identity")).
Proof.
  assert (Hshort : (length audio < 2)%nat ->
            analyze_delta_compression audio
            = Raise (ValueError
                       "zero-size array to reduction operation maximum which has no identity")).
  { intros Hlen. destruct audio as [|a0 [|a1 tl]]; [reflexivity | reflexivity |].
    simpl in Hlen. lia. }
  split; [split | exact Hshort].
  - intros Hok. destruct (Nat.lt_ge_cases (length audio) 2) as [Hlt | Hge]; [|exact Hge].
    rewrite (Hshort Hlt) in Hok. discriminate.
  - intros Hlen. destruct (analyze_result audio Hlen) as (a & -> & _). reflexivity.
Qed.



(** The analysis and the encoder agree.  On the same waveform (two samples
    or more, of magnitude up to 2^1000) the analysis counts the tiers as
    the encoder does, and its predicted average width times the number of
    deltas is the number of bits the encoder spends after the 16-bit
    reference, up to the rounding of the average: a relative error of at
    most 2^-50. *)
Theorem analysis_predicts_encoder_bits (audio : list Q) :
  (2 <= length audio)%nat -> Forall Binary64.in_range audio ->
  exists a r,
    analyze_delta_compression audio = Ok a
    /\ compress_audio_delta init audio = Ok r
    /\ distribution (info r)
       = (small_deltas (stats a), medium_deltas (stats a), large_deltas (stats a))
    /\ (Qabs (avg_bits_per_delta (potential a) * inject_Z (delta_samples (info r))
              - inject_Z (compressed_bits (info r) - 16))
        <= inject_Z (compressed_bits (info r) - 16) * (1 # 2 ^ 50))%Q.
Proof.
  intros Hlen _.
  destruct (analyze_result audio Hlen)
    as (a & Ha & Hs & Hm & Hl & _ & Hbits & _).
  destruct (compress_info audio Hlen)
    as (r & Hr & Hdist & Hs0 & Hm0 & Hl0 & _ & Hds & _ & _ & _ & Hcb & _).
  exists a, r. split; [exact Ha|]. split; [exact Hr|].
  split; [rewrite Hs, Hm, Hl; exact Hdist|].
  assert (Hexact : (avg_bits_per_delta (potential a)
                    * inject_Z (delta_samples (info r))
                    - inject_Z (compressed_bits (info r) - 16) == 0)%Q).
  { rewrite Hds, Hcb, Hbits.
    match goal with
    | |- (inject_Z ?x - inject_Z ?y == 0)%Q => replace y with x by lia
    end.
    ring. }
  rewrite Hexact. change (Qabs 0) with 0%Q.
  apply Qmult_le_0_compat; [|discriminate].
  rewrite Hcb. change 0%Q with (inject_Z 0). rewrite <- Zle_Qle. lia.
Qed.

Lemma analysis_predicts_encoder_bits_witness :
  exists a r,
    analyze_delta_compression [0; 1 # 2; 1 # 4]%Q = Ok a
    /\ compress_audio_delta init [0; 1 # 2; 1 # 4]%Q = Ok r
    /\ distribution (info r)
       = (small_deltas (stats a), medium_deltas (stats a), large_deltas (stats a))
    /\ (Qabs (avg_bits_per_delta (potential a) * inject_Z (delta_samples (info r))
              - inject_Z (compressed_bits (info r) - 16))
        <= inject_Z (compressed_bits (info r) - 16) * (1 # 2 ^ 50))%Q.
Proof.
  apply (analysis_predicts_encoder_bits [0; 1 # 2; 1 # 4]%Q).
  - simpl. lia.
  - constructor; [vm_compute; discriminate|].
    constructor; [vm_compute; discriminate|].
    constructor; [vm_compute; discriminate|]. constructor.
Defined.

End DeltaAnalysis.

(** ** bin2c: the array is laid out in rows of 16 *)

Section Bin2CLayout.
Import Bin2C.

Lemma string_app_assoc (a b c : string) : (a +:+ b) +:+ c = a +:+ (b +:+ c).
Proof.
  induction a as [|x a IH]; [reflexivity|].
  change (String x ((a +:+ b) +:+ c) = String x (a +:+ (b +:+ c))).
  apply f_equal. exact IH.
Qed.

Lemma string_app_nil_r (a : string) : a +:+ "" = a.
Proof.
  induction a as [|x a IH]; [reflexivity|].
  change (String x (a +:+ "") = String x a). apply f_equal. exact IH.
Qed.

Lemma concat_snoc sep (l : list string) x :
  String.concat sep (l ++ [x])
  = match l with
    | [] => x
    | _ => String.concat sep l +:+ sep +:+ x
    end.
Proof.
  induction l as [|y l IH]; [reflexivity|].
  destruct l as [|z l]; [reflexivity|].
  change (String.concat sep ((y :: z :: l) ++ [x]))
    with (y +:+ sep +:+ String.concat sep ((z :: l) ++ [x])).
  rewrite IH.
  change (String.concat sep (y :: z :: l))
    with (y +:+ sep +:+ String.concat sep (z :: l)).
  rewrite ?string_app_assoc; reflexivity.
Qed.

(** The text already written for the values of an unfinished row. *)
Lemma row_text_snoc row byte :
  row_text (row ++ [byte])
  = match row with
    | [] => "    " +:+ hex_literal byte
    | _ => row_text row +:+ ", " +:+ hex_literal byte
    end.
Proof.
  unfold row_text. rewrite map_app. cbn [map]. rewrite concat_snoc.
  destruct row as [|b row]; [reflexivity|].
  cbn [map]. rewrite ?string_app_assoc; reflexivity.
Qed.

Lemma rows16_nonempty data : forall row,
  data <> [] -> rows16 data row <> [].
Proof.
  induction data as [|b [|b' rest] IH]; intros row Hne; [congruence | |].
  - cbn [rows16]. destruct (length row =? 15)%nat; [discriminate|].
    destruct (row ++ [b]) eqn:E; [destruct row; discriminate | discriminate].
  - cbn [rows16] in *. destruct (length row =? 15)%nat; [discriminate|].
    apply IH. discriminate.
Qed.

Lemma write_bytes_rows data : forall row (i len : nat),
  data <> [] -> length row = (i mod 16)%nat -> len = (i + length data)%nat ->
  (match row with [] => "" | _ => row_text row +:+ ", " end)
  +:+ write_bytes i len data
  +:+ (if negb (len mod 16 =? 0)%nat then newline else "")
  = String.concat ("," +:+ newline) (map row_text (rows16 data row)) +:+ newline.
Proof.
  induction data as [|byte rest IH]; intros row i len Hne Hrow Hlen; [congruence|].
  cbn [write_bytes rows16]. rewrite <- Hrow.
  assert (Hlt : (length row < 16)%nat)
    by (rewrite Hrow; apply Nat.mod_upper_bound; lia).
  assert (Hcomma : (i <? len - 1)%nat = negb (length rest =? 0)%nat).
  { subst len. cbn [length].
    destruct (Nat.ltb_spec i (i + S (length rest) - 1));
      destruct (Nat.eqb_spec (length rest) 0); simpl; lia || reflexivity. }
  rewrite Hcomma.
  assert (Hnext : (S i mod 16 = if (length row =? 15)%nat then 0 else S (length row))%nat).
  { destruct (Nat.eqb_spec (length row) 15) as [E | E].
    - pose proof (Nat.div_mod_eq i 16). pose proof (Nat.div_mod_eq (S i) 16).
      pose proof (Nat.mod_upper_bound (S i) 16 ltac:(lia)). lia.
    - pose proof (Nat.div_mod_eq i 16). pose proof (Nat.div_mod_eq (S i) 16).
      pose proof (Nat.mod_upper_bound (S i) 16 ltac:(lia)). lia. }
  destruct rest as [|b' rest'].
  - (* the last value *)
    cbn [length Nat.eqb negb write_bytes rows16].
    assert (Hfinal : (len mod 16 =? 0)%nat = (length row =? 15)%nat).
    { subst len. cbn [length]. replace (i + 1)%nat with (S i) by lia.
      rewrite Hnext. destruct (length row =? 15)%nat; reflexivity. }
    rewrite Hfinal.
    destruct (Nat.eqb_spec (length row) 15) as [E | E].
    + destruct row as [|r0 row]; [discriminate E|].
      cbn [negb map String.concat]. rewrite row_text_snoc.
      replace (length (r0 :: row) =? 0)%nat with false by reflexivity.
      rewrite ?string_app_assoc. reflexivity.
    + cbn [negb]. destruct (row ++ [byte]) as [|x l] eqn:Erow;
        [destruct row; discriminate|].
      rewrite <- Erow. cbn [map String.concat]. rewrite row_text_snoc.
      destruct row as [|r0 row].
      * cbn [length Nat.eqb]. rewrite ?string_app_assoc. reflexivity.
      * replace (length (r0 :: row) =? 0)%nat with false by reflexivity.
        rewrite ?string_app_assoc. reflexivity.
  - (* more values follow *)
    replace (negb (length (b' :: rest') =? 0)%nat) with true by reflexivity.
    destruct (Nat.eqb_spec (length row) 15) as [E | E].
    + destruct row as [|r0 row]; [discriminate E|].
      replace (length (r0 :: row) =? 0)%nat with false by reflexivity.
      pose proof (IH [] (S i) len ltac:(discriminate)) as IH'.
      rewrite Hnext in IH'.
      replace (length (r0 :: row) =? 15)%nat with true in IH'
        by (symmetry; apply Nat.eqb_eq; exact E).
      specialize (IH' eq_refl ltac:(subst len; cbn [length]; lia)).
      cbn [map].
      pose proof (rows16_nonempty (b' :: rest') [] ltac:(discriminate)) as Hrows.
      destruct (rows16 (b' :: rest') []) as [|r1 rows] eqn:Erows; [congruence|].
      change (String.concat ("," +:+ newline)
                (row_text ((r0 :: row) ++ [byte]) :: map row_text (r1 :: rows)))
        with (row_text ((r0 :: row) ++ [byte]) +:+ ("," +:+ newline)
              +:+ String.concat ("," +:+ newline) (map row_text (r1 :: rows))).
      rewrite ?string_app_assoc. rewrite <- IH'. rewrite row_text_snoc.
      rewrite ?string_app_assoc. reflexivity.
    + pose proof (IH (row ++ [byte]) (S i) len ltac:(discriminate)) as IH'.
      rewrite Hnext in IH'.
      replace (length row =? 15)%nat with false in IH'
        by (symmetry; apply Nat.eqb_neq; exact E).
      specialize (IH' ltac:(rewrite length_app; cbn [length]; lia)
                      ltac:(subst len; cbn [length]; lia)).
      rewrite <- IH'.
      destruct (row ++ [byte]) as [|x l] eqn:Erow; [destruct row; discriminate|].
      rewrite <- Erow. rewrite row_text_snoc.
      destruct row as [|r0 row].
      * cbn [length Nat.eqb]. rewrite ?string_app_assoc. reflexivity.
      * replace (length (r0 :: row) =? 0)%nat with false by reflexivity.
        rewrite ?string_app_assoc. reflexivity.
Qed.

Lemma rows16_shape data : forall row,
  (length row < 16)%nat ->
  concat (rows16 data row) = row ++ data
  /\ Forall (fun r => (1 <= length r <= 16)%nat) (rows16 data row)
  /\ Forall (fun r => length r = 16%nat) (removelast (rows16 data row)).
Proof.
  induction data as [|b rest IH]; intros row Hrow.
  - cbn [rows16]. destruct row as [|r0 row].
    + repeat split; constructor.
    + cbn [concat removelast]. rewrite !app_nil_r.
      repeat split; [|constructor]. constructor; [simpl in *; lia | constructor].
  - cbn [rows16]. destruct (Nat.eqb_spec (length row) 15) as [E | E].
    + destruct (IH [] ltac:(simpl; lia)) as (Hc & Hf & Hl).
      cbn [concat]. rewrite Hc. split; [now rewrite <- app_assoc|].
      split.
      * constructor; [rewrite length_app; simpl; lia | exact Hf].
      * destruct (rows16 rest []) as [|r1 rows] eqn:Er; [constructor|].
        change (removelast ((row ++ [b]) :: r1 :: rows))
          with ((row ++ [b]) :: removelast (r1 :: rows)).
        constructor; [rewrite length_app; simpl; lia | exact Hl].
    + destruct (IH (row ++ [b]) ltac:(rewrite length_app; simpl; lia))
        as (Hc & Hf & Hl).
      rewrite Hc. split; [now rewrite <- app_assoc|]. split; assumption.
Qed.

(** The generated C source.  Between the opening and the closing line the
    bytes appear in order as [0x..] literals in rows of exactly 16 (the last
    row may be shorter), indented by four spaces, separated by ", ", with a
    comma after every row but the last and no comma after the last value;
    both size figures are the number of bytes. *)
Theorem bin2c_layout (input_name : string) (data : list Z) (array_name : string) :
  bin2c input_name data array_name
  = "// Auto-generated from " +:+ input_name +:+ newline
    +:+ "// File size: " +:+ pretty (length data) +:+ " bytes" +:+ newline +:+ newline
    +:+ "const unsigned char " +:+ array_name +:+ "[] = {" +:+ newline
    +:+ array_text data
    +:+ "};" +:+ newline +:+ newline
    +:+ "const unsigned int " +:+ array_name +:+ "_size = "
    +:+ pretty (length data) +:+ ";" +:+ newline
  /\ concat (rows16 data []) = data
  /\ Forall (fun r => (1 <= length r <= 16)%nat) (rows16 data [])
  /\ Forall (fun r => length r = 16%nat) (removelast (rows16 data [])).
Proof.
  split; [|apply (rows16_shape data []); simpl; lia].
  unfold bin2c. cbn zeta. do 10 f_equal.
  destruct data as [|b rest] eqn:Ed; [reflexivity|]. rewrite <- Ed.
  pose proof (write_bytes_rows data [] 0 (length data)
                ltac:(subst; discriminate) eq_refl eq_refl) as H.
  cbn [String.append] in H.
  unfold array_text. rewrite Ed. rewrite <- Ed. rewrite <- H.
  rewrite ?string_app_assoc. reflexivity.
Qed.

End Bin2CLayout.
